(** * The Stockfish engine session of src/engine/stockfish.ts

    A shallow embedding of the [StockfishEngine] class: the fields of the
    object, the worker it owns, the timers and promises it creates, and the
    callbacks that drive it.  Every callback of the JavaScript event loop
    (an API call, a worker message, a worker error, a timer firing, the
    resumption of a suspended [getBestMove]) is one step of the machine. *)

From Stdlib Require Import ZArith QArith Qround Strings.String Strings.Ascii Lia.
From stdpp Require Import base option list gmap.

Local Open Scope Z_scope.

(** ** JavaScript numbers

    [number] values are the finite doubles, the two infinities and NaN.
    Finite doubles are rationals, and the only arithmetic the class performs
    ([Math.floor], [Math.min], [Math.max], truthiness) is exact on them, so a
    finite number is carried as a rational.  The sign of zero is not
    kept: [Math.max(0, -0)] is [0], [-0] is falsy like [0], and both print
    as [0] in a template literal. *)

Inductive jsnum : Type :=
| JFin (q : Q)
| JPosInf
| JNegInf
| JNaN.

Definition num (z : Z) : jsnum := JFin (inject_Z z).

(** [Math.floor] *)
Definition js_floor (x : jsnum) : jsnum :=
  match x with
  | JFin q => JFin (inject_Z (Qfloor q))
  | _ => x
  end.

(** [a < b] on numbers other than NaN. *)
Definition js_lt (a b : jsnum) : bool :=
  match a, b with
  | JNaN, _ | _, JNaN => false
  | JNegInf, JNegInf => false
  | JNegInf, _ => true
  | _, JNegInf => false
  | JPosInf, _ => false
  | _, JPosInf => true
  | JFin p, JFin q => negb (Qle_bool q p)
  end.

(** [Math.min(a, b)]: NaN if either argument is NaN. *)
Definition js_min (a b : jsnum) : jsnum :=
  match a, b with
  | JNaN, _ | _, JNaN => JNaN
  | _, _ => if js_lt b a then b else a
  end.

(** [Math.max(a, b)]: NaN if either argument is NaN. *)
Definition js_max (a b : jsnum) : jsnum :=
  match a, b with
  | JNaN, _ | _, JNaN => JNaN
  | _, _ => if js_lt a b then b else a
  end.

(** Truthiness of a number: everything but zero and NaN. *)
Definition num_truthy (x : jsnum) : bool :=
  match x with
  | JFin q => negb (Qeq_bool q 0)
  | JPosInf | JNegInf => true
  | JNaN => false
  end.

(** ** JavaScript strings

    A string is a sequence of UTF-16 code units. *)

Definition jsstring : Type := list N.

(** A literal of the source, written with Rocq's string notation. *)
Definition lit (s : string) : jsstring :=
  map N_of_ascii (list_ascii_of_string s).

Fixpoint str_eqb (a b : jsstring) : bool :=
  match a, b with
  | [], [] => true
  | x :: a', y :: b' => N.eqb x y && str_eqb a' b'
  | _, _ => false
  end.

(** [text.startsWith(p)] *)
Fixpoint startsWith (p text : jsstring) : bool :=
  match p, text with
  | [], _ => true
  | _ :: _, [] => false
  | x :: p', y :: text' => N.eqb x y && startsWith p' text'
  end.

(** [text.includes(p)] *)
Fixpoint includes (p text : jsstring) : bool :=
  startsWith p text ||
  match text with
  | [] => false
  | _ :: text' => includes p text'
  end.

(** The code units matched by [\s] and stripped by [trim]: ECMAScript's
    WhiteSpace and LineTerminator. *)
Definition is_space (c : N) : bool :=
  ((9 <=? c) && (c <=? 13) || (c =? 32) || (c =? 160) || (c =? 5760)
   || (8192 <=? c) && (c <=? 8202) || (c =? 8232) || (c =? 8233)
   || (c =? 8239) || (c =? 8287) || (c =? 12288) || (c =? 65279))%N.

Fixpoint trimStart (s : jsstring) : jsstring :=
  match s with
  | c :: s' => if is_space c then trimStart s' else s
  | [] => []
  end.

Definition trimEnd (s : jsstring) : jsstring := rev (trimStart (rev s)).

(** [text.trim()] *)
Definition trim (s : jsstring) : jsstring := trimEnd (trimStart s).

(** [s.split(/\s+/)]: the pieces between maximal runs of white space.  A
    run at either end leaves an empty piece there, and the empty string
    splits into one empty piece.  [cur] is the piece being read, reversed;
    [inrun] says that the previous code unit was white space. *)
Fixpoint split_ws_from (inrun : bool) (cur : jsstring) (s : jsstring)
  : list jsstring :=
  match s with
  | [] => [rev cur]
  | c :: s' =>
      if is_space c
      then if inrun then split_ws_from true [] s'
           else rev cur :: split_ws_from true [] s'
      else split_ws_from false (c :: cur) s'
  end.

Definition split_ws (s : jsstring) : list jsstring := split_ws_from false [] s.

(** [parts.indexOf(x)], [-1] when absent. *)
Fixpoint indexOf_from (i : Z) (x : jsstring) (parts : list jsstring) : Z :=
  match parts with
  | [] => -1
  | p :: parts' => if str_eqb p x then i else indexOf_from (i + 1) x parts'
  end.

Definition indexOf (parts : list jsstring) (x : jsstring) : Z :=
  indexOf_from 0 x parts.

(** [parts[i]]: [None] is [undefined]. *)
Definition at_index (parts : list jsstring) (i : Z) : option jsstring :=
  if i <? 0 then None else parts !! Z.to_nat i.

(** Truthiness of [parts[i]]: defined and not the empty string. *)
Definition str_truthy (o : option jsstring) : bool :=
  match o with
  | Some (_ :: _) => true
  | _ => false
  end.

(** ** Best moves *)

Record BestMove : Type := mkBestMove {
  move : option jsstring;    (* [parts[1]], possibly [undefined] *)
  ponder : option jsstring   (* absent unless assigned *)
}.

(** The body of the [if (text.startsWith('bestmove'))] branch of
    [onMessage], up to the value passed to [resolve]. *)
Definition parseBestMove (text : jsstring) : BestMove :=
  let parts := split_ws (trim text) in
  let ponderIdx := indexOf parts (lit "ponder") in
  let next := at_index parts (ponderIdx + 1) in
  {| move := parts !! 1%nat;
     ponder := if negb (ponderIdx =? -1) && str_truthy next
               then next else None |}.

(** ** What the session sends and what it is told *)

(** The value interpolated into a [setoption] line. *)
Inductive optvalue : Type :=
| VNum (n : jsnum)
| VStr (s : jsstring).

(** The lines given to [postMessage], one constructor per template. *)
Inductive command : Type :=
| Cuci                                              (* [uci] *)
| Cucinewgame                                       (* [ucinewgame] *)
| Cisready                                          (* [isready] *)
| Csetoption (name : jsstring) (value : optvalue)   (* [setoption name N value V] *)
| Cposition_fen (fen : jsstring)                    (* [position fen F] *)
| Cgo_depth (d : jsnum)                             (* [go depth D] *)
| Cgo_movetime (t : jsnum).                         (* [go movetime T] *)

(** [e.data] of a message event: a string or anything else. *)
Inductive msgdata : Type :=
| DString (text : jsstring)
| DOther.

(** [typeof e.data === 'string' ? e.data : ''] *)
Definition text_of (d : msgdata) : jsstring :=
  match d with
  | DString t => t
  | DOther => []
  end.

Inductive error : Type :=
| WorkerFailedToInitialize   (* [new Error('Stockfish worker failed to initialize')] *)
| NullWorkerTypeError        (* a member access on [this.worker!] when it is [null] *)
| WorkerConstructorError.    (* what [new Worker(scriptUrl)] throws when it fails *)

Inductive promise (A : Type) : Type :=
| Pending
| Fulfilled (v : A)
| Rejected (e : error).
Arguments Pending {A}.
Arguments Fulfilled {A} v.
Arguments Rejected {A} e.

(** [resolve(v)] and a rejection: only a pending promise changes. *)
Definition settle {A} (p : nat) (r : promise A) (ps : list (promise A))
  : list (promise A) :=
  match ps !! p with
  | Some Pending => <[p := r]> ps
  | _ => ps
  end.

(** The variables captured by [handleMessage] and [handleError] of one
    [initializeWorker] call.  Both listeners are attached together and
    removed together, so one record stands for the pair. *)
Record init_closure : Type := mkInitClosure {
  ic_singleThreaded : bool;
  ic_timeout : nat;
  ic_resolve : nat
}.

(** The live [Worker] object: its identity and its listeners.  [w_search]
    holds the promises resolved by the attached [onMessage] listeners, in
    the order they were attached. *)
Record Worker : Type := mkWorker {
  w_id : nat;
  w_init : option init_closure;
  w_search : list nat
}.

Inductive timer_status : Type := TimerPending | TimerFired | TimerCleared.

(** A [setTimeout] callback of [initializeWorker] with what it captured. *)
Record timer : Type := mkTimer {
  tm_singleThreaded : bool;
  tm_resolve : nat;
  tm_status : timer_status
}.

Record options : Type := mkOptions {
  movetimeMs : option jsnum;
  depth : option jsnum
}.

(** Where a [getBestMove] call is suspended. *)
Inductive stage : Type :=
| AwaitInitialize (p : nat)          (* [await this.initialize()] *)
| AwaitPendingInit (p : option nat)  (* [await this.pendingInit] *)
| Finished.

Record task : Type := mkTask {
  tk_fen : jsstring;
  tk_options : option options;
  tk_promise : nat;
  tk_stage : stage
}.

(** The fields of the engine object, then the part of the browser it
    touches: the workers it has created and terminated, the lines it has
    posted (with the worker that received them), its timers, the promises
    of [initialize] and of [getBestMove], and the suspended calls. *)
Record state : Type := mkState {
  worker : option Worker;
  isReady : bool;
  pendingInit : option nat;
  currentSkillLevel : jsnum;
  isSingleThreaded : bool;
  hardwareConcurrency : option jsnum;
  launched : list jsstring;
  terminated : list nat;
  sent : list (nat * command);
  timers : list timer;
  initPromises : list (promise unit);
  searchPromises : list (promise BestMove);
  tasks : list task
}.

Definition set_worker (s : state) (x : option Worker) : state :=
  mkState x (isReady s) (pendingInit s) (currentSkillLevel s)
    (isSingleThreaded s) (hardwareConcurrency s) (launched s) (terminated s)
    (sent s) (timers s) (initPromises s) (searchPromises s) (tasks s).
Definition set_isReady (s : state) (x : bool) : state :=
  mkState (worker s) x (pendingInit s) (currentSkillLevel s)
    (isSingleThreaded s) (hardwareConcurrency s) (launched s) (terminated s)
    (sent s) (timers s) (initPromises s) (searchPromises s) (tasks s).
Definition set_pendingInit (s : state) (x : option nat) : state :=
  mkState (worker s) (isReady s) x (currentSkillLevel s)
    (isSingleThreaded s) (hardwareConcurrency s) (launched s) (terminated s)
    (sent s) (timers s) (initPromises s) (searchPromises s) (tasks s).
Definition set_currentSkillLevel (s : state) (x : jsnum) : state :=
  mkState (worker s) (isReady s) (pendingInit s) x
    (isSingleThreaded s) (hardwareConcurrency s) (launched s) (terminated s)
    (sent s) (timers s) (initPromises s) (searchPromises s) (tasks s).
Definition set_isSingleThreaded (s : state) (x : bool) : state :=
  mkState (worker s) (isReady s) (pendingInit s) (currentSkillLevel s)
    x (hardwareConcurrency s) (launched s) (terminated s)
    (sent s) (timers s) (initPromises s) (searchPromises s) (tasks s).
Definition set_launched (s : state) (x : list jsstring) : state :=
  mkState (worker s) (isReady s) (pendingInit s) (currentSkillLevel s)
    (isSingleThreaded s) (hardwareConcurrency s) x (terminated s)
    (sent s) (timers s) (initPromises s) (searchPromises s) (tasks s).
Definition set_terminated (s : state) (x : list nat) : state :=
  mkState (worker s) (isReady s) (pendingInit s) (currentSkillLevel s)
    (isSingleThreaded s) (hardwareConcurrency s) (launched s) x
    (sent s) (timers s) (initPromises s) (searchPromises s) (tasks s).
Definition set_sent (s : state) (x : list (nat * command)) : state :=
  mkState (worker s) (isReady s) (pendingInit s) (currentSkillLevel s)
    (isSingleThreaded s) (hardwareConcurrency s) (launched s) (terminated s)
    x (timers s) (initPromises s) (searchPromises s) (tasks s).
Definition set_timers (s : state) (x : list timer) : state :=
  mkState (worker s) (isReady s) (pendingInit s) (currentSkillLevel s)
    (isSingleThreaded s) (hardwareConcurrency s) (launched s) (terminated s)
    (sent s) x (initPromises s) (searchPromises s) (tasks s).
Definition set_initPromises (s : state) (x : list (promise unit)) : state :=
  mkState (worker s) (isReady s) (pendingInit s) (currentSkillLevel s)
    (isSingleThreaded s) (hardwareConcurrency s) (launched s) (terminated s)
    (sent s) (timers s) x (searchPromises s) (tasks s).
Definition set_searchPromises (s : state) (x : list (promise BestMove)) : state :=
  mkState (worker s) (isReady s) (pendingInit s) (currentSkillLevel s)
    (isSingleThreaded s) (hardwareConcurrency s) (launched s) (terminated s)
    (sent s) (timers s) (initPromises s) x (tasks s).
Definition set_tasks (s : state) (x : list task) : state :=
  mkState (worker s) (isReady s) (pendingInit s) (currentSkillLevel s)
    (isSingleThreaded s) (hardwareConcurrency s) (launched s) (terminated s)
    (sent s) (timers s) (initPromises s) (searchPromises s) x.

(** A new [StockfishEngine] in a browser reporting [hc] for
    [navigator.hardwareConcurrency] ([None]: no navigator, or no such
    property). *)
Definition init (hc : option jsnum) : state :=
  {| worker := None; isReady := false; pendingInit := None;
     currentSkillLevel := num 20; isSingleThreaded := false;
     hardwareConcurrency := hc; launched := []; terminated := [];
     sent := []; timers := []; initPromises := []; searchPromises := [];
     tasks := [] |}.

(** ** The methods and callbacks *)

Definition multi_url : jsstring := lit "/stockfish/stockfish-nnue-16.js".
Definition single_url : jsstring := lit "/stockfish/stockfish-nnue-16-single.js".

(** [this.worker.postMessage(c)] where the worker is known to exist. *)
Definition postMessage (c : command) (s : state) : state :=
  match worker s with
  | Some w => set_sent s (sent s ++ [(w_id w, c)])
  | None => s
  end.

(** [if (this.worker) { this.worker.terminate(); this.worker = null; }] *)
Definition terminate_worker (s : state) : state :=
  match worker s with
  | Some w => set_worker (set_terminated s (terminated s ++ [w_id w])) None
  | None => s
  end.

(** [cores] and [threads] of [initializeWorker]. *)
Definition cores (s : state) : jsnum :=
  match hardwareConcurrency s with
  | Some n => if num_truthy n then n else num 2
  | None => num 2
  end.

Definition threads (singleThreaded : bool) (s : state) : jsnum :=
  if singleThreaded then num 1 else js_max (num 1) (js_min (cores s) (num 8)).

(** The closure [initializeWorker] of the promise whose [resolve] is
    [resolve]: terminate the current worker, create the new one, arm the
    2500 ms timer, attach the two listeners and post the handshake.  This
    is the call in which [new Worker] returns; the call in which it throws
    is [Browser.initializeWorker] below. *)
Definition initializeWorker (resolve : nat) (scriptUrl : jsstring)
    (singleThreaded : bool) (s : state) : state :=
  let s := terminate_worker s in
  let wid := length (launched s) in
  let timeout := length (timers s) in
  let s := set_launched s (launched s ++ [scriptUrl]) in
  let s := set_isSingleThreaded s singleThreaded in
  let s := set_timers s (timers s ++ [mkTimer singleThreaded resolve TimerPending]) in
  let s := set_worker s
             (Some (mkWorker wid
                      (Some (mkInitClosure singleThreaded timeout resolve)) [])) in
  let s := postMessage Cuci s in
  let s := postMessage Cucinewgame s in
  let s := postMessage (Csetoption (lit "Threads") (VNum (threads singleThreaded s))) s in
  let s := postMessage (Csetoption (lit "Skill Level") (VNum (currentSkillLevel s))) s in
  postMessage (Csetoption (lit "Ponder") (VStr (lit "false"))) s.

(** [initialize()]: the promise it returns and the new state. *)
Definition initialize (s : state) : nat * state :=
  match pendingInit s with
  | Some p => (p, s)
  | None =>
      let p := length (initPromises s) in
      let s := set_initPromises s (initPromises s ++ [Pending]) in
      let s := initializeWorker p multi_url false s in
      (p, set_pendingInit s (Some p))
  end.

(** The callback given to [setTimeout], for timer [t]. *)
Definition timer_fire (t : nat) (s : state) : state :=
  match timers s !! t with
  | Some (mkTimer singleThreaded resolve TimerPending) =>
      let s := set_timers s (<[t := mkTimer singleThreaded resolve TimerFired]> (timers s)) in
      if negb (isReady s) && negb singleThreaded
      then initializeWorker resolve single_url true s
      else s
  | _ => s
  end.

(** [handleError] of the closure [ic]. *)
Definition handleError (ic : init_closure) (s : state) : state :=
  if negb (ic_singleThreaded ic)
  then initializeWorker (ic_resolve ic) single_url true s
  else s.

(** [clearTimeout(t)] *)
Definition clearTimeout (t : nat) (s : state) : state :=
  match timers s !! t with
  | Some (mkTimer singleThreaded resolve TimerPending) =>
      set_timers s (<[t := mkTimer singleThreaded resolve TimerCleared]> (timers s))
  | _ => s
  end.

(** Detach [handleMessage] and [handleError] from the current worker. *)
Definition remove_init_listeners (s : state) : state :=
  match worker s with
  | Some w => set_worker s (Some (mkWorker (w_id w) None (w_search w)))
  | None => s
  end.

(** [handleMessage] of the closure [ic] on the data [d]. *)
Definition handleMessage (ic : init_closure) (d : msgdata) (s : state) : state :=
  let text := text_of d in
  match text with
  | [] => s
  | _ :: _ =>
      if includes (lit "uciok") text then postMessage Cisready s
      else if includes (lit "readyok") text then
        let s := clearTimeout (ic_timeout ic) s in
        let s := set_isReady s true in
        let s := remove_init_listeners s in
        set_initPromises s (settle (ic_resolve ic) (Fulfilled tt) (initPromises s))
      else s
  end.

(** Detach the [onMessage] listener that resolves promise [p]. *)
Definition remove_search_listener (p : nat) (s : state) : state :=
  match worker s with
  | Some w =>
      set_worker s
        (Some (mkWorker (w_id w) (w_init w)
                 (filter (fun x => x ≠ p) (w_search w))))
  | None => s
  end.

(** [onMessage] of the [getBestMove] call whose promise is [p]. *)
Definition onMessage (p : nat) (d : msgdata) (s : state) : state :=
  let text := text_of d in
  match text with
  | [] => s
  | _ :: _ =>
      if startsWith (lit "bestmove") text then
        let result := parseBestMove text in
        let s := remove_search_listener p s in
        set_searchPromises s (settle p (Fulfilled result) (searchPromises s))
      else s
  end.

(** A [message] event of the current worker: the listeners attached when
    the event is dispatched run in the order they were attached,
    [handleMessage] first. *)
Definition worker_message (d : msgdata) (s : state) : state :=
  match worker s with
  | None => s
  | Some w =>
      let s := match w_init w with
               | Some ic => handleMessage ic d s
               | None => s
               end in
      foldl (fun s p => onMessage p d s) s (w_search w)
  end.

(** An [error] event of the current worker. *)
Definition worker_error (s : state) : state :=
  match worker s with
  | Some (mkWorker _ (Some ic) _) => handleError ic s
  | _ => s
  end.

(** *** [getBestMove] *)

Definition set_stage (i : nat) (st : stage) (s : state) : state :=
  set_tasks s
    (alter (fun tk => mkTask (tk_fen tk) (tk_options tk) (tk_promise tk) st) i
       (tasks s)).

(** The async function ends with an exception [e]. *)
Definition gbm_throw (i : nat) (tk : task) (e : error) (s : state) : state :=
  set_stage i Finished
    (set_searchPromises s (settle (tk_promise tk) (Rejected e) (searchPromises s))).

(** The line that starts the search: [options?.depth] chooses between the
    two [go] templates, and [??] supplies the default move time. *)
Definition search_command (o : option options) : command :=
  match o ≫= depth with
  | Some d =>
      if num_truthy d then Cgo_depth d
      else Cgo_movetime (default (num 500) (o ≫= movetimeMs))
  | None => Cgo_movetime (default (num 500) (o ≫= movetimeMs))
  end.

(** The executor of the promise that [getBestMove] returns: attach
    [onMessage], post the position, post the search.  With no worker the
    first [this.worker!] access throws and the promise is rejected. *)
Definition gbm_send (i : nat) (tk : task) (s : state) : state :=
  match worker s with
  | None => gbm_throw i tk NullWorkerTypeError s
  | Some w =>
      let s := set_worker s
                 (Some (mkWorker (w_id w) (w_init w)
                          (w_search w ++ [tk_promise tk]))) in
      let s := postMessage (Cposition_fen (tk_fen tk)) s in
      let s := postMessage (search_command (tk_options tk)) s in
      set_stage i Finished s
  end.

(** From [if (!this.worker) throw ...] on. *)
Definition gbm_after_initialize (i : nat) (tk : task) (s : state) : state :=
  match worker s with
  | None => gbm_throw i tk WorkerFailedToInitialize s
  | Some _ =>
      if isReady s then gbm_send i tk s
      else set_stage i (AwaitPendingInit (pendingInit s)) s
  end.

(** [getBestMove(fen, options)] up to its first suspension: the promise it
    returns and the new state. *)
Definition getBestMove (fen : jsstring) (o : option options) (s : state)
  : nat * state :=
  let p := length (searchPromises s) in
  let i := length (tasks s) in
  let tk := mkTask fen o p Finished in
  let s := set_searchPromises s (searchPromises s ++ [Pending]) in
  let s := set_tasks s (tasks s ++ [tk]) in
  match worker s with
  | None =>
      let '(q, s) := initialize s in
      (p, set_stage i (AwaitInitialize q) s)
  | Some _ => (p, gbm_after_initialize i tk s)
  end.

(** The continuation of suspended call [i], once what it awaits is
    settled.  Awaiting [null] settles at once. *)
Definition resume (i : nat) (s : state) : state :=
  match tasks s !! i with
  | Some tk =>
      match tk_stage tk with
      | AwaitInitialize p =>
          match initPromises s !! p with
          | Some (Fulfilled _) => gbm_after_initialize i tk s
          | Some (Rejected e) => gbm_throw i tk e s
          | _ => s
          end
      | AwaitPendingInit (Some p) =>
          match initPromises s !! p with
          | Some (Fulfilled _) => gbm_send i tk s
          | Some (Rejected e) => gbm_throw i tk e s
          | _ => s
          end
      | AwaitPendingInit None => gbm_send i tk s
      | Finished => s
      end
  | None => s
  end.

(** *** Options and disposal *)

Definition clamp (lo hi : Z) (x : jsnum) : jsnum :=
  js_max (num lo) (js_min (num hi) (js_floor x)).

Definition ready_worker (s : state) : bool :=
  match worker s with
  | Some _ => isReady s
  | None => false
  end.

(** [setSkillLevel(level)] *)
Definition setSkillLevel (level : jsnum) (s : state) : state :=
  let s := set_currentSkillLevel s (clamp 0 20 level) in
  if ready_worker s
  then postMessage (Csetoption (lit "Skill Level") (VNum (currentSkillLevel s))) s
  else s.

(** [setHashSize(mb)] *)
Definition setHashSize (mb : jsnum) (s : state) : state :=
  let clamped := clamp 16 4096 mb in
  if ready_worker s
  then postMessage (Csetoption (lit "Hash") (VNum clamped)) s
  else s.

(** [setOption(name, value)] *)
Definition setOption (name : jsstring) (value : optvalue) (s : state) : state :=
  match worker s with
  | None => s
  | Some _ => postMessage (Csetoption name value) s
  end.

(** [dispose()] *)
Definition dispose (s : state) : state :=
  match worker s with
  | Some _ =>
      let s := terminate_worker s in
      let s := set_isReady s false in
      set_pendingInit s None
  | None => s
  end.

(** [usingSingleThreaded] *)
Definition usingSingleThreaded (s : state) : bool := isSingleThreaded s.

(** ** The event loop

    [Resume i] is the continuation of the suspended call [i].  The
    browser runs it as a microtask, before the next message, error or
    timer; [run] leaves the order to the trace. *)

Inductive event : Type :=
| CallInitialize
| CallGetBestMove (fen : jsstring) (o : option options)
| CallSetSkillLevel (level : jsnum)
| CallSetHashSize (mb : jsnum)
| CallSetOption (name : jsstring) (value : optvalue)
| CallDispose
| WorkerMessage (d : msgdata)
| WorkerError
| TimerFire (t : nat)
| Resume (i : nat).

Definition step (e : event) (s : state) : state :=
  match e with
  | CallInitialize => snd (initialize s)
  | CallGetBestMove fen o => snd (getBestMove fen o s)
  | CallSetSkillLevel level => setSkillLevel level s
  | CallSetHashSize mb => setHashSize mb s
  | CallSetOption name value => setOption name value s
  | CallDispose => dispose s
  | WorkerMessage d => worker_message d s
  | WorkerError => worker_error s
  | TimerFire t => timer_fire t s
  | Resume i => resume i s
  end.

Definition run (tr : list event) (s : state) : state :=
  foldl (fun s e => step e s) s tr.

(** ** A browser in which [new Worker] can throw

    [new Worker(scriptUrl)] (line 24 of [initializeWorker]) either
    returns a worker or throws.  The callbacks that reach it are given
    here with the outcome of the constructor as an argument: with
    [constructs = true] they are the callbacks above, with
    [constructs = false] [initializeWorker] stops at line 24, after the
    old worker has been terminated and [this.worker] set to [null]. *)
Module Browser.

(** The new state and the exception that leaves [initializeWorker]. *)
Definition initializeWorker (constructs : bool) (resolve : nat)
    (scriptUrl : jsstring) (singleThreaded : bool) (s : state)
  : state * option error :=
  if constructs
  then (initializeWorker resolve scriptUrl singleThreaded s, None)
  else (terminate_worker s, Some WorkerConstructorError).

(** [initialize()].  An exception of the executor rejects the new
    promise, which is stored in [pendingInit] all the same. *)
Definition initialize (constructs : bool) (s : state) : nat * state :=
  match pendingInit s with
  | Some p => (p, s)
  | None =>
      let p := length (initPromises s) in
      let s := set_initPromises s (initPromises s ++ [Pending]) in
      let '(s, thrown) := initializeWorker constructs p multi_url false s in
      let s := match thrown with
               | Some e =>
                   set_initPromises s (settle p (Rejected e) (initPromises s))
               | None => s
               end in
      (p, set_pendingInit s (Some p))
  end.

(** The callback given to [setTimeout]; an exception that leaves it is
    not caught by the engine. *)
Definition timer_fire (constructs : bool) (t : nat) (s : state) : state :=
  match timers s !! t with
  | Some (mkTimer singleThreaded resolve TimerPending) =>
      let s := set_timers s (<[t := mkTimer singleThreaded resolve TimerFired]> (timers s)) in
      if negb (isReady s) && negb singleThreaded
      then fst (initializeWorker constructs resolve single_url true s)
      else s
  | _ => s
  end.

(** [handleError]; an exception that leaves it is not caught either. *)
Definition handleError (constructs : bool) (ic : init_closure) (s : state)
  : state :=
  if negb (ic_singleThreaded ic)
  then fst (initializeWorker constructs (ic_resolve ic) single_url true s)
  else s.

Definition worker_error (constructs : bool) (s : state) : state :=
  match worker s with
  | Some (mkWorker _ (Some ic) _) => handleError constructs ic s
  | _ => s
  end.

(** [getBestMove(fen, options)] up to its first suspension. *)
Definition getBestMove (constructs : bool) (fen : jsstring)
    (o : option options) (s : state) : nat * state :=
  let p := length (searchPromises s) in
  let i := length (tasks s) in
  let tk := mkTask fen o p Finished in
  let s := set_searchPromises s (searchPromises s ++ [Pending]) in
  let s := set_tasks s (tasks s ++ [tk]) in
  match worker s with
  | None =>
      let '(q, s) := initialize constructs s in
      (p, set_stage i (AwaitInitialize q) s)
  | Some _ => (p, gbm_after_initialize i tk s)
  end.

(** An event, with what [new Worker] does if the event reaches it. *)
Definition step (constructs : bool) (e : event) (s : state) : state :=
  match e with
  | CallInitialize => snd (initialize constructs s)
  | CallGetBestMove fen o => snd (getBestMove constructs fen o s)
  | WorkerError => worker_error constructs s
  | TimerFire t => timer_fire constructs t s
  | _ => step e s
  end.

Definition run (tr : list (bool * event)) (s : state) : state :=
  foldl (fun s ce => step (fst ce) (snd ce) s) s tr.

End Browser.

(** ** Predicates of the statements *)

(** A stored skill level that is an integer of [0..20]. *)
Definition skill_in_range (x : jsnum) : Prop :=
  ∃ k : Z, x = num k ∧ 0 <= k <= 20.

(** A posted line that, if it sets [Skill Level] or [Hash], carries an
    integer of the option's range. *)
Definition wire_ok (c : command) : Prop :=
  match c with
  | Csetoption name v =>
      (name = lit "Skill Level" → ∃ k : Z, v = VNum (num k) ∧ 0 <= k <= 20)
      ∧ (name = lit "Hash" → ∃ k : Z, v = VNum (num k) ∧ 16 <= k <= 4096)
  | _ => True
  end.

Definition is_finite (x : jsnum) : bool :=
  match x with
  | JFin _ => true
  | _ => false
  end.

(** An event whose setter argument, if any, is a real number. *)
Definition real_input (e : event) : Prop :=
  match e with
  | CallSetSkillLevel x | CallSetHashSize x => is_finite x = true
  | _ => True
  end.

(** An event that is not a raw [setOption] of one of the clamped options. *)
Definition no_raw_override (e : event) : Prop :=
  match e with
  | CallSetOption name _ => name ≠ lit "Skill Level" ∧ name ≠ lit "Hash"
  | _ => True
  end.

(** An event that is not a message carrying [readyok]. *)
Definition no_readyok (e : event) : Prop :=
  match e with
  | WorkerMessage d => includes (lit "readyok") (text_of d) = false
  | _ => True
  end.

(** A token: not empty and free of white space. *)
Definition is_token (t : jsstring) : Prop :=
  t ≠ [] ∧ Forall (fun c => is_space c = false) t.

(** A string that does not end with white space. *)
Definition ends_nonspace (s : jsstring) : Prop :=
  match rev s with
  | c :: _ => is_space c = false
  | [] => True
  end.

(** The stored skill level and every posted line are in range. *)
Definition wire_inv (s : state) : Prop :=
  skill_in_range (currentSkillLevel s)
  ∧ Forall (fun x => wire_ok (snd x)) (sent s).

(** The workers launched from the single-threaded script. *)
Definition fallback_launches (s : state) : nat :=
  length (filter (fun u => u = single_url) (launched s)).

(** ** Further predicates *)

(** The identity of the live worker, if any. *)
Definition live (s : state) : list nat :=
  match worker s with
  | Some w => [w_id w]
  | None => []
  end.

(** Every worker created so far is terminated, in the order of creation,
    except the live one, which is the last created. *)
Definition accounted (s : state) : Prop :=
  terminated s ++ live s = seq 0 (length (launched s)).

(** ** The board component of src/App.tsx

    The chess rules come from the [chess.js] library; what the component
    computes from its answers is modelled here, with the answers as
    arguments. *)

Inductive piece_color : Type := ColorW | ColorB.       (* ['w' | 'b'] *)
Inductive piece_type : Type := Pawn | Knight | Bishop | Rook | Queen | King.

(** An entry of [game.board()], as far as the component reads it. *)
Record piece : Type := mkPiece {
  p_type : piece_type;
  p_color : piece_color
}.

Definition color_eqb (a b : piece_color) : bool :=
  match a, b with
  | ColorW, ColorW | ColorB, ColorB => true
  | _, _ => false
  end.

(** [piece && piece.type === 'k' && piece.color === turn] *)
Definition is_king_of (turn : piece_color) (o : option (option piece)) : bool :=
  match o with
  | Some (Some (mkPiece King c)) => color_eqb c turn
  | _ => false
  end.

(** The template [files[c] + rank] with [rank = 8 - r]: the letter of the
    file and the digit of the rank. *)
Definition square_name (r c : nat) : jsstring :=
  [(97 + N.of_nat c)%N; (48 + N.of_nat (8 - r))%N].

(** The result of [findKingSquare]: a square, [null], or the TypeError of
    reading a column of a row that the board does not have. *)
Inductive king_result : Type :=
| KingAt (sq : jsstring)
| KingNull
| KingTypeError.

(** The inner loop, from column [c] for [n] more columns.  A column the
    row does not have reads as [undefined]. *)
Fixpoint scan_cols (row : list (option piece)) (turn : piece_color)
    (r c n : nat) : option jsstring :=
  match n with
  | O => None
  | S n' =>
      if is_king_of turn (row !! c) then Some (square_name r c)
      else scan_cols row turn r (S c) n'
  end.

(** The outer loop, from row [r] for [n] more rows. *)
Fixpoint scan_rows (board : list (list (option piece))) (turn : piece_color)
    (r n : nat) : king_result :=
  match n with
  | O => KingNull
  | S n' =>
      match board !! r with
      | None => KingTypeError
      | Some row =>
          match scan_cols row turn r 0 8 with
          | Some sq => KingAt sq
          | None => scan_rows board turn (S r) n'
          end
      end
  end.

(** [findKingSquare(game, turn)] on [board = game.board()]. *)
Definition findKingSquare (board : list (list (option piece)))
    (turn : piece_color) : king_result :=
  scan_rows board turn 0 8.

(** A king of colour [turn] stands in row [r], column [c] of the board. *)
Definition king_at (board : list (list (option piece))) (turn : piece_color)
    (r c : nat) : Prop :=
  ∃ row, board !! r = Some row ∧ row !! c = Some (Some (mkPiece King turn)).

(** A row of the move list: White's move and Black's reply. *)
Record move_pair (A : Type) : Type := mkPair {
  pair_w : option A;
  pair_b : option A
}.
Arguments mkPair {A} _ _.
Arguments pair_w {A} _.
Arguments pair_b {A} _.

(** [a[i] = x] on a JavaScript array, whose missing elements are holes: a
    write past the end extends the array. *)
Definition array_set {B} (a : list (option B)) (i : nat) (x : B)
  : list (option B) :=
  if decide (i < length a)%nat then <[i := Some x]> a
  else a ++ replicate (i - length a) None ++ [Some x].

(** The callback of [history.forEach] in the move list, for move [m] at
    index [idx]. *)
Definition pair_step {A} (pairs : list (option (move_pair A)))
    (idx : nat) (m : A) : list (option (move_pair A)) :=
  let pIdx := (idx / 2)%nat in
  let pairs :=
    match pairs !! pIdx with
    | Some (Some _) => pairs
    | _ => array_set pairs pIdx (mkPair None None)
    end in
  alter (fmap (fun p => if (idx mod 2 =? 0)%nat
                        then mkPair (Some m) (pair_b p)
                        else mkPair (pair_w p) (Some m)))
    pIdx pairs.

Fixpoint forEach_pairs {A} (pairs : list (option (move_pair A)))
    (idx : nat) (history : list A) : list (option (move_pair A)) :=
  match history with
  | [] => pairs
  | m :: history' => forEach_pairs (pair_step pairs idx m) (S idx) history'
  end.

(** The array [pairs] built from [history]. *)
Definition move_pairs {A} (history : list A) : list (option (move_pair A)) :=
  forEach_pairs [] 0 history.

(** Row [k] of the move list as it should be: moves [2k] and [2k + 1]. *)
Definition pair_rows {A} (history : list A) : list (option (move_pair A)) :=
  (fun k => Some (mkPair (history !! (2 * k)%nat) (history !! (2 * k + 1)%nat)))
    <$> seq 0 ((length history + 1) / 2).

(** The answers of [chess.js] read by [updateStatus]. *)
Record game_flags : Type := mkFlags {
  g_isGameOver : bool;
  g_isCheckmate : bool;
  g_isStalemate : bool;
  g_isInsufficientMaterial : bool;
  g_isThreefoldRepetition : bool;
  g_isDraw : bool;
  g_turn : piece_color;
  g_inCheck : bool
}.

(** The em dash of the status line, U+2014. *)
Definition em_dash : N := 8212%N.

(** The string given to [setStatus] by [updateStatus]. *)
Definition updateStatus (g : game_flags) : jsstring :=
  if g_isGameOver g then
    if g_isCheckmate g then lit "Checkmate"
    else if g_isStalemate g then lit "Stalemate"
    else if g_isInsufficientMaterial g then lit "Draw: Insufficient material"
    else if g_isThreefoldRepetition g then lit "Draw: Threefold repetition"
    else if g_isDraw g then lit "Draw"
    else []
  else
    (match g_turn g with ColorW => lit "White" | ColorB => lit "Black" end)
    ++ lit " to move"
    ++ (if g_inCheck g then lit " " ++ [em_dash] ++ lit " Check!" else []).

(** The two notes rendered after the status:
    [status.includes('Checkmate')] and
    [!status.includes('Checkmate') && status.includes('Check')]. *)
Definition shows_checkmate_note (status : jsstring) : bool :=
  includes (lit "Checkmate") status.

Definition shows_check_note (status : jsstring) : bool :=
  negb (includes (lit "Checkmate") status) && includes (lit "Check") status.

(** [s.slice(a, b)] for indices [0 <= a <= b]. *)
Definition slice (s : jsstring) (a b : nat) : jsstring :=
  take (b - a) (drop a s).

(** The argument given to [chessRef.current.move] by [makeAIMove]. *)
Record move_request : Type := mkMoveRequest {
  mr_from : jsstring;
  mr_to : jsstring;
  mr_promotion : jsstring
}.

(** [makeAIMove] from the engine's answer to the move request: [None] is
    the TypeError of [move.slice] on an undefined [move]. *)
Definition decode_move (m : option jsstring) : option move_request :=
  match m with
  | None => None
  | Some mv =>
      Some {| mr_from := slice mv 0 2;
              mr_to := slice mv 2 4;
              mr_promotion := match mv !! 4%nat with
                              | Some c => [c]
                              | None => lit "q"
                              end |}
  end.

(** The style properties [buildSquareStyles] sets on a square. *)
Record css : Type := mkCss {
  boxShadow : option jsstring;
  backgroundImage : option jsstring;
  animation : option jsstring
}.

(** The empty object of [styles[sq] || {}]. *)
Definition no_css : css := mkCss None None None.

Definition style_at (styles : gmap jsstring css) (sq : jsstring) : css :=
  default no_css (styles !! sq).

(** Truthiness of a string. *)
Definition str_nonempty (s : jsstring) : bool :=
  match s with
  | [] => false
  | _ :: _ => true
  end.

Definition highlight : jsstring :=
  lit "inset 0 0 0 1000px rgba(255, 235, 59, 0.15)".
Definition selection_ring : jsstring := lit ", inset 0 0 0 3px #42a5f5".
Definition target_dot : jsstring :=
  lit "radial-gradient(circle, rgba(0,200,83,0.9) 0 10px, rgba(0,200,83,0.0) 11px)".
Definition check_pulse : jsstring := lit "checkPulse 1200ms ease-in-out infinite".

(** [styles[sq] = { ...(styles[sq] || {}), boxShadow: v }] and its two
    siblings. *)
Definition set_boxShadow (sq v : jsstring) (styles : gmap jsstring css)
  : gmap jsstring css :=
  <[sq := mkCss (Some v) (backgroundImage (style_at styles sq))
            (animation (style_at styles sq))]> styles.

Definition set_backgroundImage (sq v : jsstring) (styles : gmap jsstring css)
  : gmap jsstring css :=
  <[sq := mkCss (boxShadow (style_at styles sq)) (Some v)
            (animation (style_at styles sq))]> styles.

Definition set_animation (sq v : jsstring) (styles : gmap jsstring css)
  : gmap jsstring css :=
  <[sq := mkCss (boxShadow (style_at styles sq))
            (backgroundImage (style_at styles sq)) (Some v)]> styles.

(** [buildSquareStyles()], from the last move of the history (its [from]
    and [to]), the selected square, the legal targets in the order the
    set lists them, the answers of the game and its board.  [None] is the
    TypeError of [findKingSquare]. *)
Definition buildSquareStyles (last : option (jsstring * jsstring))
    (selectedSquare : option jsstring) (legalTargets : list jsstring)
    (g : game_flags) (board : list (list (option piece)))
  : option (gmap jsstring css) :=
  let styles : gmap jsstring css := ∅ in
  let styles :=
    match last with
    | Some (from, to) =>
        if str_nonempty from && str_nonempty to
        then set_boxShadow to highlight (set_boxShadow from highlight styles)
        else styles
    | None => styles
    end in
  let styles :=
    match selectedSquare with
    | Some sel =>
        if str_nonempty sel then
          let styles :=
            set_boxShadow sel
              (default [] (styles !! sel ≫= boxShadow) ++ selection_ring)
              styles in
          foldl (fun styles sq => set_backgroundImage sq target_dot styles)
            styles legalTargets
        else styles
    | None => styles
    end in
  if negb (g_isGameOver g) && g_inCheck g then
    match findKingSquare board (g_turn g) with
    | KingAt kingSquare =>
        if str_nonempty kingSquare
        then Some (set_animation kingSquare check_pulse styles)
        else Some styles
    | KingNull => Some styles
    | KingTypeError => None
    end
  else Some styles.

(** The marks a square can carry. *)
Definition last_marks (last : option (jsstring * jsstring)) (sq : jsstring) : bool :=
  match last with
  | Some (from, to) =>
      str_nonempty from && str_nonempty to
      && (bool_decide (sq = from) || bool_decide (sq = to))
  | None => false
  end.

Definition is_selected (selectedSquare : option jsstring) (sq : jsstring) : bool :=
  match selectedSquare with
  | Some sel => str_nonempty sel && bool_decide (sq = sel)
  | None => false
  end.

Definition is_target (selectedSquare : option jsstring)
    (legalTargets : list jsstring) (sq : jsstring) : bool :=
  match selectedSquare with
  | Some sel => str_nonempty sel && bool_decide (sq ∈ legalTargets)
  | None => false
  end.

Definition king_marks (g : game_flags) (board : list (list (option piece)))
    (sq : jsstring) : bool :=
  negb (g_isGameOver g) && g_inCheck g
  && match findKingSquare board (g_turn g) with
     | KingAt k => str_nonempty k && bool_decide (sq = k)
     | _ => false
     end.

(** A map of styles that holds [F sq] on the squares of [D] and nothing
    elsewhere. *)
Definition described (styles : gmap jsstring css)
    (D : jsstring → bool) (F : jsstring → css) : Prop :=
  ∀ sq, styles !! sq = (if D sq then Some (F sq) else None)
        ∧ (D sq = false → F sq = no_css).

(** ** Numbers *)

Lemma Qle_bool_inject (a b : Z) :
  Qle_bool (inject_Z a) (inject_Z b) = (a <=? b).
Proof. unfold Qle_bool; simpl. by rewrite !Z.mul_1_r. Qed.

Lemma js_min_num (a b : Z) : js_min (num a) (num b) = num (Z.min a b).
Proof.
  unfold js_min, js_lt, num. rewrite Qle_bool_inject.
  destruct (Z.leb_spec a b); simpl; f_equal; f_equal; lia.
Qed.

Lemma js_max_num (a b : Z) : js_max (num a) (num b) = num (Z.max a b).
Proof.
  unfold js_max, js_lt, num. rewrite Qle_bool_inject.
  destruct (Z.leb_spec b a); simpl; f_equal; f_equal; lia.
Qed.

Lemma clamp_finite (lo hi : Z) (q : Q) :
  clamp lo hi (JFin q) = num (Z.max lo (Z.min hi (Qfloor q))).
Proof.
  unfold clamp. simpl js_floor. fold (num (Qfloor q)).
  by rewrite js_min_num, js_max_num.
Qed.

Lemma clamp_integer (lo hi z : Z) :
  clamp lo hi (num z) = num (Z.max lo (Z.min hi z)).
Proof. unfold num at 1. by rewrite clamp_finite, Qfloor_Z. Qed.

Lemma clamp_skill_in_range (x : jsnum) :
  is_finite x = true → skill_in_range (clamp 0 20 x).
Proof.
  destruct x; try discriminate. intros _. rewrite clamp_finite.
  eexists; split; [reflexivity | lia].
Qed.

(** ** Footprints of the callbacks *)

Ltac unfold_ops :=
  unfold resume, gbm_after_initialize, gbm_send, gbm_throw, set_stage,
    worker_error, handleError, timer_fire, handleMessage, onMessage,
    remove_search_listener, remove_init_listeners, clearTimeout,
    setSkillLevel, setHashSize, setOption, ready_worker, dispose,
    initializeWorker, terminate_worker, postMessage in *.

Ltac split_cases :=
  repeat (simpl in *;
          match goal with
          | |- context [match ?x with _ => _ end] => destruct x eqn:?
          end);
  simpl in *.

(** A property kept by every [onMessage] is kept by the dispatch to all
    the search listeners. *)
Lemma dispatch_search_inv (P : state → Prop) (d : msgdata) :
  (∀ s p, P s → P (onMessage p d s)) →
  ∀ l s, P s → P (foldl (fun s p => onMessage p d s) s l).
Proof.
  intros HP l. induction l as [|p l IH]; intros s Hs; simpl; [done|].
  apply IH, HP, Hs.
Qed.

Lemma initializeWorker_pendingInit r u b s :
  pendingInit (initializeWorker r u b s) = pendingInit s.
Proof. unfold_ops. by split_cases. Qed.

Lemma initialize_pendingInit s :
  pendingInit (snd (initialize s)) = Some (fst (initialize s)).
Proof. unfold initialize. by destruct (pendingInit s) eqn:E. Qed.

Lemma initialize_memo s p :
  pendingInit s = Some p → initialize s = (p, s).
Proof. unfold initialize. by intros ->. Qed.

Lemma worker_message_pendingInit d s :
  pendingInit (worker_message d s) = pendingInit s.
Proof.
  unfold worker_message. destruct (worker s) as [w|]; [|done].
  apply (dispatch_search_inv (fun s' => pendingInit s' = pendingInit s)).
  - intros s' p <-. unfold_ops. by split_cases.
  - destruct (w_init w); [|done]. unfold_ops. by split_cases.
Qed.

Lemma gbm_after_initialize_pendingInit i tk s :
  pendingInit (gbm_after_initialize i tk s) = pendingInit s.
Proof. unfold_ops. by split_cases. Qed.

Lemma step_pendingInit e s p :
  e ≠ CallDispose → pendingInit s = Some p → pendingInit (step e s) = Some p.
Proof.
  intros He Hp. destruct e; simpl; try done.
  - by rewrite (initialize_memo s p).
  - unfold getBestMove. simpl. destruct (worker s) eqn:Hw; simpl.
    + by rewrite gbm_after_initialize_pendingInit.
    + unfold initialize. simpl. by rewrite Hp.
  - unfold_ops. by split_cases.
  - unfold_ops. by split_cases.
  - unfold_ops. by split_cases.
  - by rewrite worker_message_pendingInit.
  - unfold_ops. by split_cases.
  - unfold_ops. by split_cases.
  - unfold_ops. by split_cases.
Qed.

Lemma run_app tr1 tr2 s : run (tr1 ++ tr2) s = run tr2 (run tr1 s).
Proof. unfold run. apply foldl_app. Qed.

Lemma run_pendingInit tr s p :
  Forall (fun e => e ≠ CallDispose) tr →
  pendingInit s = Some p → pendingInit (run tr s) = Some p.
Proof.
  intros Htr. revert s. induction Htr as [|e tr He _ IH]; intros s Hp; [done|].
  simpl. apply IH. by apply step_pendingInit.
Qed.

(** ** Memoized initialization *)

(** C1. [initialize()] is memoized.  Let [p] be the promise returned by a
    call of [initialize()] in any state.  After any events in which the
    session is not disposed, a further [initialize()] returns the same
    promise [p] and changes nothing, so it launches no worker; the first
    call launched exactly one worker (the multi-threaded script) if no
    initialization was pending, and none otherwise. *)
Theorem initialize_memoized (s : state) (tr : list event) :
  Forall (fun e => e ≠ CallDispose) tr →
  let p := fst (initialize s) in
  let s1 := snd (initialize s) in
  initialize (run tr s1) = (p, run tr s1)
  ∧ initialize s1 = (p, s1)
  ∧ launched (snd (initialize s1)) = launched s1
  ∧ launched s1
    = launched s ++ match pendingInit s with
                    | None => [multi_url]
                    | Some _ => []
                    end.
Proof.
  intros Htr p s1.
  assert (Hp : pendingInit s1 = Some p) by apply initialize_pendingInit.
  split; [|split; [|split]].
  - apply initialize_memo, run_pendingInit; done.
  - by apply initialize_memo.
  - by rewrite (initialize_memo s1 p).
  - subst p s1. unfold initialize.
    destruct (pendingInit s); simpl; [by rewrite app_nil_r|].
    unfold_ops. by split_cases.
Qed.

Lemma initialize_memoized_witness :
  let tr := [WorkerMessage (DString (lit "uciok")); CallInitialize;
             TimerFire 0; WorkerError] in
  Forall (fun e => e ≠ CallDispose) tr
  ∧ initialize (run tr (snd (initialize (init None))))
    = (fst (initialize (init None)), run tr (snd (initialize (init None)))).
Proof.
  assert (H : Forall (fun e => e ≠ CallDispose)
                [WorkerMessage (DString (lit "uciok")); CallInitialize;
                 TimerFire 0; WorkerError])
    by (repeat constructor; discriminate).
  split; [exact H|].
  exact (proj1 (initialize_memoized (init None) _ H)).
Defined.

(** ** The stale handshake timer *)

(** C2.  After [initialize()], an error of the multi-threaded worker starts
    the single-threaded one, and the timer armed for the multi-threaded
    worker stays pending.  When that timer fires before [readyok], the
    single-threaded worker (worker 1) is terminated and a third worker is
    launched from the single-threaded script: the timer is not a no-op
    although the fallback variant is already active. *)
Theorem stale_timer_restarts_fallback :
  let s := run [CallInitialize; WorkerError] (init None) in
  let s' := step (TimerFire 0) s in
  usingSingleThreaded s = true
  ∧ isReady s = false
  ∧ w_id <$> worker s = Some 1%nat
  ∧ terminated s = [0%nat]
  ∧ terminated s' = [0%nat; 1%nat]
  ∧ launched s' = [multi_url; single_url; single_url]
  ∧ w_id <$> worker s' = Some 2%nat
  ∧ s' ≠ s.
Proof. vm_compute. repeat split; discriminate. Qed.

(** C3.  In the run [initialize(); worker error; first timer fires] the
    single-threaded script is launched twice: the error handler launches
    it once, and the timer of the terminated multi-threaded worker
    launches it again while the fallback variant is active. *)
Theorem two_fallback_launches :
  let s := run [CallInitialize; WorkerError] (init None) in
  fallback_launches s = 1%nat
  ∧ usingSingleThreaded s = true
  ∧ fallback_launches (step (TimerFire 0) s) = 2%nat.
Proof. vm_compute. repeat split. Qed.

(** ** The promises of [initialize] *)

Lemma settle_length {A} p (r : promise A) ps : length (settle p r ps) = length ps.
Proof. unfold settle. repeat case_match; by rewrite ?length_insert. Qed.

Lemma settle_lookup_ne {A} p q (r : promise A) ps :
  p ≠ q → settle p r ps !! q = ps !! q.
Proof.
  intros Hne. unfold settle. repeat case_match; try done.
  by apply list_lookup_insert_ne.
Qed.

Lemma settle_lookup_settled {A} p q (r x : promise A) ps :
  ps !! q = Some x → x ≠ Pending → settle p r ps !! q = Some x.
Proof.
  intros Hq Hx. destruct (decide (p = q)) as [->|Hne].
  - unfold settle. rewrite Hq. by destruct x.
  - by rewrite settle_lookup_ne.
Qed.

Lemma settle_lookup_pending {A} p (r : promise A) ps :
  ps !! p = Some Pending → settle p r ps !! p = Some r.
Proof.
  intros Hp. unfold settle. rewrite Hp.
  apply list_lookup_insert_eq. by eapply lookup_lt_Some.
Qed.


Lemma initializeWorker_initPromises r u b s :
  initPromises (initializeWorker r u b s) = initPromises s.
Proof. unfold_ops. by split_cases. Qed.

Lemma handleMessage_initPromises ic d s :
  initPromises (handleMessage ic d s) = initPromises s
  ∨ (includes (lit "readyok") (text_of d) = true
     ∧ initPromises (handleMessage ic d s)
       = settle (ic_resolve ic) (Fulfilled tt) (initPromises s)).
Proof.
  unfold handleMessage. destruct (text_of d) as [|c t] eqn:Ht; [by left|].
  destruct (includes (lit "uciok") (c :: t)); [left; unfold_ops; by split_cases|].
  destruct (includes (lit "readyok") (c :: t)) eqn:Hr; [|by left].
  right. split; [done|]. unfold_ops. by split_cases.
Qed.

Lemma dispatch_search_initPromises d l s :
  initPromises (foldl (fun s p => onMessage p d s) s l) = initPromises s.
Proof.
  apply (dispatch_search_inv (fun s' => initPromises s' = initPromises s)); [|done].
  intros s' p <-. unfold_ops. by split_cases.
Qed.

Lemma initializeWorker_worker r u b s :
  worker (initializeWorker r u b s)
  = Some (mkWorker (length (launched s))
            (Some (mkInitClosure b (length (timers s)) r)) []).
Proof. unfold_ops. by split_cases. Qed.

(** C4, counterexample.  Both variants fail: the timer of the
    multi-threaded worker fires, the timer of the single-threaded worker
    fires, the single-threaded worker reports an error.  No timer is left
    and no listener will act, yet the promise of [initialize()] is still
    pending: it has neither resolved nor failed. *)
Lemma initialize_hangs_when_both_variants_fail :
  let s := run [CallInitialize; TimerFire 0; TimerFire 1; WorkerError]
             (init None) in
  fst (initialize (init None)) = 0%nat
  ∧ usingSingleThreaded s = true
  ∧ isReady s = false
  ∧ Forall (fun t => tm_status t = TimerFired) (timers s)
  ∧ step WorkerError s = s
  ∧ initPromises s = [Pending].
Proof. vm_compute. repeat split; repeat constructor. Qed.

(** ** Tokens of a [bestmove] line *)

Lemma str_eqb_eq (a b : jsstring) : str_eqb a b = true ↔ a = b.
Proof.
  revert b. induction a as [|x a IH]; intros [|y b]; simpl; try done.
  rewrite andb_true_iff, N.eqb_eq, IH. split; [by intros [-> ->]|by intros [= -> ->]].
Qed.

Lemma trimStart_filter (s : jsstring) :
  List.filter (fun c => negb (is_space c)) (trimStart s)
  = List.filter (fun c => negb (is_space c)) s.
Proof.
  induction s as [|c s IH]; simpl; [done|].
  destruct (is_space c) eqn:E; simpl; [done|by rewrite E].
Qed.

Lemma trimStart_app_nonspace (s : jsstring) (c : N) :
  is_space c = false → trimStart (s ++ [c]) = trimStart s ++ [c].
Proof.
  intros Hc. induction s as [|x s IH]; simpl; [by rewrite Hc|].
  by destruct (is_space x).
Qed.

Lemma trimStart_head (s : jsstring) :
  match trimStart s with
  | c :: _ => is_space c = false
  | [] => True
  end.
Proof.
  induction s as [|c s IH]; simpl; [done|].
  destruct (is_space c) eqn:E; [done|by simpl].
Qed.

Lemma trim_filter (s : jsstring) :
  List.filter (fun c => negb (is_space c)) (trim s)
  = List.filter (fun c => negb (is_space c)) s.
Proof.
  unfold trim, trimEnd.
  rewrite List.filter_rev, trimStart_filter, <- List.filter_rev, rev_involutive.
  apply trimStart_filter.
Qed.

Lemma trim_bestmove (c : N) (rest : jsstring) :
  is_space c = false →
  trim (c :: rest) = c :: rev (trimStart (rev rest))
  ∧ ends_nonspace (trim (c :: rest)).
Proof.
  intros Hc.
  assert (E : trim (c :: rest) = c :: rev (trimStart (rev rest))).
  { unfold trim, trimEnd. simpl trimStart. rewrite Hc. simpl rev.
    rewrite trimStart_app_nonspace by done.
    rewrite rev_app_distr. done. }
  split; [done|]. rewrite E. unfold ends_nonspace. simpl.
  rewrite rev_involutive.
  pose proof (trimStart_head (rev rest)) as H.
  destruct (trimStart (rev rest)); simpl; done.
Qed.

Lemma ends_nonspace_tail (c : N) (s : jsstring) :
  ends_nonspace (c :: s) → s ≠ [] → ends_nonspace s.
Proof.
  unfold ends_nonspace. simpl. intros H Hs.
  destruct (rev s) as [|x r] eqn:E; simpl in *; [|done].
  apply (f_equal (@rev N)) in E. rewrite rev_involutive in E. done.
Qed.

Lemma ends_nonspace_single (c : N) : ends_nonspace [c] → is_space c = false.
Proof. done. Qed.

(** The pieces cut from a string that ends outside white space are tokens,
    provided the piece being read is white-space free and, when the cut
    starts outside a run, not about to be emitted empty. *)
Lemma split_ws_from_tokens (s cur : jsstring) (inrun : bool) :
  ends_nonspace s →
  Forall (fun c => is_space c = false) cur →
  (s = [] → cur ≠ []) →
  (inrun = false → cur ≠ [] ∨ ∃ c s', s = c :: s' ∧ is_space c = false) →
  Forall is_token (split_ws_from inrun cur s).
Proof.
  revert cur inrun. induction s as [|c s IH]; intros cur inrun Hend Hcur Hnil Hrun.
  - simpl. constructor; [|constructor]. split.
    + intros E. apply (f_equal (@rev N)) in E. rewrite rev_involutive in E.
      by apply Hnil.
    + by apply List.Forall_rev.
  - simpl. destruct (is_space c) eqn:Hc.
    + assert (Hs : s ≠ []).
      { intros ->. apply ends_nonspace_single in Hend. congruence. }
      assert (Hrec : Forall is_token (split_ws_from true [] s)).
      { apply IH; [by eapply ends_nonspace_tail|constructor|done|done]. }
      destruct inrun; [done|]. constructor; [|done].
      destruct (Hrun eq_refl) as [Hne|(c' & s' & [= -> ->] & Hc')]; [|congruence].
      split.
      * intros E. apply (f_equal (@rev N)) in E. rewrite rev_involutive in E. done.
      * by apply List.Forall_rev.
    + apply IH.
      * destruct s as [|c' s']; [done|]. by eapply ends_nonspace_tail.
      * by constructor.
      * done.
      * intros _. by left.
Qed.

Lemma split_ws_from_concat (s cur : jsstring) (inrun : bool) :
  (inrun = true → cur = []) →
  concat (split_ws_from inrun cur s)
  = rev cur ++ List.filter (fun c => negb (is_space c)) s.
Proof.
  revert cur inrun. induction s as [|c s IH]; intros cur inrun Hrun; simpl.
  - by rewrite !app_nil_r.
  - destruct (is_space c) eqn:Hc; simpl.
    + destruct inrun; simpl.
      * rewrite IH by done. by rewrite (Hrun eq_refl).
      * by rewrite IH.
    + rewrite IH by done. simpl. by rewrite <- app_assoc.
Qed.

(** The tokens of a line that starts with a code unit other than white
    space, and what they are made of. *)
Lemma split_trim_tokens (c : N) (rest : jsstring) :
  is_space c = false →
  Forall is_token (split_ws (trim (c :: rest)))
  ∧ concat (split_ws (trim (c :: rest)))
    = List.filter (fun c => negb (is_space c)) (c :: rest).
Proof.
  intros Hc. destruct (trim_bestmove c rest Hc) as [E Hend]. split.
  - apply split_ws_from_tokens; [done|constructor| |].
    + rewrite E. done.
    + intros _. right. rewrite E. eauto.
  - unfold split_ws. rewrite split_ws_from_concat by done. apply trim_filter.
Qed.

Lemma indexOf_from_first (i : Z) (x : jsstring) (pre post : list jsstring) :
  x ∉ pre → indexOf_from i x (pre ++ x :: post) = i + Z.of_nat (length pre).
Proof.
  revert i. induction pre as [|y pre IH]; intros i Hx; simpl.
  - assert (str_eqb x x = true) as -> by by apply str_eqb_eq. lia.
  - apply not_elem_of_cons in Hx as [Hxy Hx].
    destruct (str_eqb y x) eqn:E; [apply str_eqb_eq in E; congruence|].
    rewrite IH by done. lia.
Qed.

Lemma indexOf_from_absent (i : Z) (x : jsstring) (parts : list jsstring) :
  x ∉ parts → indexOf_from i x parts = -1.
Proof.
  revert i. induction parts as [|y parts IH]; intros i Hx; simpl; [done|].
  apply not_elem_of_cons in Hx as [Hxy Hx].
  destruct (str_eqb y x) eqn:E; [apply str_eqb_eq in E; congruence|].
  by apply IH.
Qed.

Lemma at_index_after (x : jsstring) (pre post : list jsstring) :
  at_index (pre ++ x :: post) (0 + Z.of_nat (length pre) + 1) = post !! 0%nat.
Proof.
  unfold at_index. destruct (Z.ltb_spec (0 + Z.of_nat (length pre) + 1) 0); [lia|].
  replace (Z.to_nat (0 + Z.of_nat (length pre) + 1)) with (length pre + 1)%nat by lia.
  rewrite lookup_app_r by lia.
  by replace (length pre + 1 - length pre)%nat with 1%nat by lia.
Qed.

(** The [ponder] field is the token after the first [ponder] token. *)
Lemma parse_ponder_first (text t : jsstring) :
  Forall is_token (split_ws (trim text)) →
  ponder (parseBestMove text) = Some t
  ↔ ∃ pre post,
      split_ws (trim text) = pre ++ lit "ponder" :: t :: post
      ∧ lit "ponder" ∉ pre.
Proof.
  intros Htok. unfold parseBestMove. cbn [ponder].
  set (parts := split_ws (trim text)) in *. unfold indexOf. split.
  - destruct (decide (lit "ponder" ∈ parts)) as [Hin|Hout].
    + apply list_elem_of_split_l in Hin as (pre & post & E & Hpre).
      rewrite E, indexOf_from_first, at_index_after by done.
      destruct post as [|t' post]; simpl.
      * by rewrite andb_false_r.
      * destruct (_ && _); [|done].
        intros [= ->]. eauto.
    + rewrite indexOf_from_absent by done. done.
  - intros (pre & post & E & Hpre).
    rewrite E, indexOf_from_first, at_index_after by done. simpl.
    assert (Ht : is_token t).
    { eapply Forall_forall; [exact Htok|]. rewrite E.
      apply elem_of_app. right. apply elem_of_cons. right. apply elem_of_cons. by left. }
    destruct Ht as [Ht _]. destruct t as [|c t]; [done|]. simpl.
    rewrite andb_true_r.
    by destruct (Z.eqb_spec (0 + Z.of_nat (length pre)) (-1)); [lia|].
Qed.

(** The dispatch to the search listeners resolves each of their promises
    with the parsed line. *)
Lemma dispatch_search_resolves (c : N) (rest : jsstring) (l : list nat) (s : state) :
  startsWith (lit "bestmove") (c :: rest) = true →
  searchPromises (foldl (fun s p => onMessage p (DString (c :: rest)) s) s l)
  = foldl (fun ps p => settle p (Fulfilled (parseBestMove (c :: rest))) ps)
      (searchPromises s) l.
Proof.
  intros Hb. revert s. induction l as [|p l IH]; intros s; simpl; [done|].
  rewrite IH. f_equal. unfold onMessage. cbn [text_of]. rewrite Hb.
  unfold_ops. by split_cases.
Qed.

Lemma settle_all_lookup {A} (r : promise A) (l : list nat) (ps : list (promise A)) p :
  r ≠ Pending → p ∈ l → ps !! p = Some Pending →
  foldl (fun ps p => settle p r ps) ps l !! p = Some r.
Proof.
  intros Hr. revert ps. induction l as [|q l IH]; intros ps Hin Hp; [by apply not_elem_of_nil in Hin|].
  simpl. destruct (decide (q = p)) as [->|Hne].
  - clear IH Hin. assert (H : settle p r ps !! p = Some r) by by apply settle_lookup_pending.
    revert H. generalize (settle p r ps). clear Hp ps.
    induction l as [|q l IH]; intros ps H; simpl; [done|].
    apply IH. by apply settle_lookup_settled.
  - apply IH; [|by rewrite settle_lookup_ne].
    apply elem_of_cons in Hin as [->|Hin]; done.
Qed.

Lemma handleMessage_searchPromises ic d s :
  searchPromises (handleMessage ic d s) = searchPromises s.
Proof. unfold_ops. by split_cases. Qed.

Lemma startsWith_bestmove (text : jsstring) :
  startsWith (lit "bestmove") text = true →
  ∃ c rest, text = c :: rest ∧ is_space c = false.
Proof.
  destruct text as [|c rest]; [done|].
  change (lit "bestmove") with (98%N :: lit "estmove").
  change (startsWith (98%N :: lit "estmove") (c :: rest))
    with ((98 =? c)%N && startsWith (lit "estmove") rest).
  intros H. apply andb_true_iff in H as [H _]. apply N.eqb_eq in H as <-.
  by exists 98%N, rest.
Qed.

(** C5.  When a line that starts with [bestmove] arrives, a pending
    [getBestMove] is resolved with a result read off the white-space
    separated tokens of the line: the tokens are non-empty, free of white
    space and together hold every other code unit of the line; [move] is
    token 1; [ponder] is [t] exactly when the first [ponder] token is
    followed by the token [t], and it is absent otherwise.  The two lines
    of the specification give the results written there. *)
Theorem bestmove_line_parsed
    (s : state) (w : Worker) (p : nat) (text : jsstring) :
  worker s = Some w →
  p ∈ w_search w →
  searchPromises s !! p = Some Pending →
  startsWith (lit "bestmove") text = true →
  let parts := split_ws (trim text) in
  let r := parseBestMove text in
  searchPromises (step (WorkerMessage (DString text)) s) !! p = Some (Fulfilled r)
  ∧ Forall is_token parts
  ∧ concat parts = List.filter (fun c => negb (is_space c)) text
  ∧ move r = parts !! 1%nat
  ∧ (∀ t, ponder r = Some t
          ↔ ∃ pre post, parts = pre ++ lit "ponder" :: t :: post
                        ∧ lit "ponder" ∉ pre)
  ∧ parseBestMove (lit "bestmove e7e8q")
    = {| move := Some (lit "e7e8q"); ponder := None |}
  ∧ parseBestMove (lit "bestmove e2e4 ponder e7e5")
    = {| move := Some (lit "e2e4"); ponder := Some (lit "e7e5") |}.
Proof.
  intros Hw Hp Hpend Hb parts r.
  destruct (startsWith_bestmove text Hb) as (c & rest & -> & Hc).
  destruct (split_trim_tokens c rest Hc) as [Htok Hcat].
  split; [|split; [done|split; [done|split; [done|split; [|done]]]]].
  - simpl. unfold worker_message. rewrite Hw.
    rewrite dispatch_search_resolves by done.
    apply settle_all_lookup; [done|done|].
    destruct (w_init w); [|done]. by rewrite handleMessage_searchPromises.
  - intros t. by apply parse_ponder_first.
Qed.

Lemma bestmove_line_parsed_witness :
  let s := run [CallInitialize; WorkerMessage (DString (lit "uciok"));
                WorkerMessage (DString (lit "readyok"));
                CallGetBestMove (lit "8/4P3/8/8/8/8/k6K/8 w - - 0 1") None]
             (init None) in
  let text := lit "bestmove e7e8q ponder a2a1" in
  worker s = Some (mkWorker 0 None [0%nat])
  ∧ 0%nat ∈ [0%nat]
  ∧ searchPromises s !! 0%nat = Some Pending
  ∧ startsWith (lit "bestmove") text = true
  ∧ searchPromises (step (WorkerMessage (DString text)) s) !! 0%nat
    = Some (Fulfilled {| move := Some (lit "e7e8q"); ponder := Some (lit "a2a1") |}).
Proof.
  intros s text.
  assert (Hw : worker s = Some (mkWorker 0 None [0%nat])) by reflexivity.
  assert (Hin : 0%nat ∈ w_search (mkWorker 0 None [0%nat])) by (simpl; left).
  assert (Hp : searchPromises s !! 0%nat = Some Pending) by reflexivity.
  assert (Hb : startsWith (lit "bestmove") text = true) by reflexivity.
  split; [exact Hw|]. split; [exact Hin|]. split; [exact Hp|]. split; [exact Hb|].
  exact (proj1 (bestmove_line_parsed s _ 0%nat text Hw Hin Hp Hb)).
Defined.

(** ** Clamped options *)

Lemma wire_ok_other name v :
  name ≠ lit "Skill Level" → name ≠ lit "Hash" → wire_ok (Csetoption name v).
Proof. intros H1 H2. split; intros H; congruence. Qed.

Lemma wire_ok_skill x :
  skill_in_range x → wire_ok (Csetoption (lit "Skill Level") (VNum x)).
Proof.
  intros (k & -> & Hk). split; intros H; [by exists k|].
  vm_compute in H. discriminate.
Qed.

Lemma wire_ok_hash x :
  is_finite x = true → wire_ok (Csetoption (lit "Hash") (VNum (clamp 16 4096 x))).
Proof.
  destruct x; try discriminate. intros _. rewrite clamp_finite.
  split; intros H; [vm_compute in H; discriminate|].
  eexists; split; [reflexivity|lia].
Qed.

Section Wire.

#[local] Arguments wire_ok : simpl never.
#[local] Arguments lit : simpl never.

Ltac wire_tac :=
  repeat match goal with
    | |- wire_inv _ => split; simpl
    | |- Forall _ (_ ++ _) => apply Forall_app; split
    | |- Forall _ (_ :: _) => constructor
    | |- Forall _ [] => constructor
    | |- wire_ok (Csetoption (lit "Skill Level") _) => apply wire_ok_skill
    | |- wire_ok (Csetoption (lit "Hash") _) => apply wire_ok_hash
    | |- wire_ok (Csetoption (lit _) _) =>
        apply wire_ok_other; let H := fresh in intros H; vm_compute in H; discriminate H
    | |- wire_ok Cuci => exact I
    | |- wire_ok Cucinewgame => exact I
    | |- wire_ok Cisready => exact I
    | |- wire_ok (Cposition_fen _) => exact I
    | |- wire_ok (Cgo_depth _) => exact I
    | |- wire_ok (Cgo_movetime _) => exact I
    | |- _ => progress simpl
    end;
  simpl; auto using clamp_skill_in_range.

Lemma dispatch_search_wire d l s :
  currentSkillLevel (foldl (fun s p => onMessage p d s) s l) = currentSkillLevel s
  ∧ sent (foldl (fun s p => onMessage p d s) s l) = sent s.
Proof.
  apply (dispatch_search_inv
           (fun s' => currentSkillLevel s' = currentSkillLevel s ∧ sent s' = sent s));
    [|done].
  intros s' p [<- <-]. unfold_ops. by split_cases.
Qed.

Lemma initializeWorker_wire_inv r u b s :
  wire_inv s → wire_inv (initializeWorker r u b s).
Proof. intros [Hk Hs]. unfold_ops. split_cases; wire_tac. Qed.

Lemma gbm_after_initialize_wire_inv i tk s :
  wire_inv s → wire_inv (gbm_after_initialize i tk s).
Proof.
  intros [Hk Hs]. unfold_ops. unfold search_command. split_cases; wire_tac.
Qed.

Lemma step_wire_inv e s :
  real_input e → no_raw_override e → wire_inv s → wire_inv (step e s).
Proof.
  intros Hreal Hraw Hinv. destruct e; simpl in *.
  - unfold initialize. destruct (pendingInit s); simpl; [done|].
    destruct Hinv as [Hk Hs]. unfold_ops. split_cases; wire_tac.
  - unfold getBestMove. simpl. destruct (worker s) eqn:Hw; simpl.
    + destruct Hinv as [Hk Hs]. unfold_ops. unfold search_command.
      rewrite ?Hw. split_cases; wire_tac.
    + unfold initialize. simpl. destruct Hinv as [Hk Hs].
      destruct (pendingInit s); unfold_ops; simpl; rewrite ?Hw; simpl; wire_tac.
  - destruct Hinv as [Hk Hs]. unfold_ops. split_cases; wire_tac.
  - destruct Hinv as [Hk Hs]. unfold_ops. split_cases; wire_tac.
  - destruct Hinv as [Hk Hs], Hraw as [H1 H2]. unfold_ops.
    split_cases; wire_tac. by apply wire_ok_other.
  - destruct Hinv as [Hk Hs]. unfold_ops. split_cases; wire_tac.
  - unfold worker_message. destruct (worker s) as [w|] eqn:Hw; [|done].
    destruct (dispatch_search_wire d (w_search w)
                match w_init w with Some ic => handleMessage ic d s | None => s end)
      as [E1 E2].
    split; [rewrite E1|rewrite E2]; destruct Hinv as [Hk Hs];
      destruct (w_init w); try done; unfold_ops; split_cases; wire_tac.
  - destruct Hinv as [Hk Hs]. unfold_ops. split_cases; wire_tac.
  - destruct Hinv as [Hk Hs]. unfold_ops. split_cases; wire_tac.
  - destruct Hinv as [Hk Hs]. unfold_ops. unfold search_command.
    split_cases; wire_tac.
Qed.

Lemma init_wire_inv hc : wire_inv (init hc).
Proof. split; [|constructor]. exists 20. split; [done|lia]. Qed.

Lemma run_wire_inv tr s :
  Forall real_input tr → Forall no_raw_override tr →
  wire_inv s → wire_inv (run tr s).
Proof.
  intros Hreal. revert s.
  induction Hreal as [|e tr He _ IH]; intros s Hraw Hinv; [done|].
  apply Forall_cons in Hraw as [Hraw1 Hraw]. simpl.
  apply IH; [done|]. by apply step_wire_inv.
Qed.

Lemma dispatch_search_skill d l s :
  currentSkillLevel (foldl (fun s p => onMessage p d s) s l) = currentSkillLevel s.
Proof. apply dispatch_search_wire. Qed.

(** Only [setSkillLevel] writes the stored skill level. *)
Lemma step_skill e s :
  (∀ x, e ≠ CallSetSkillLevel x) →
  currentSkillLevel (step e s) = currentSkillLevel s.
Proof.
  intros He. destruct e; simpl.
  - unfold initialize. destruct (pendingInit s); simpl; [done|].
    unfold_ops. by split_cases.
  - unfold getBestMove. simpl. destruct (worker s) eqn:Hw; simpl.
    + unfold_ops. rewrite ?Hw. by split_cases.
    + unfold initialize. simpl.
      destruct (pendingInit s); unfold_ops; simpl; rewrite ?Hw; done.
  - by destruct (He level).
  - unfold_ops. by split_cases.
  - unfold_ops. by split_cases.
  - unfold_ops. by split_cases.
  - unfold worker_message. destruct (worker s) as [w|]; [|done].
    rewrite dispatch_search_skill. destruct (w_init w); [|done].
    unfold_ops. by split_cases.
  - unfold_ops. by split_cases.
  - unfold_ops. by split_cases.
  - unfold_ops. by split_cases.
Qed.

Lemma setSkillLevel_stored level s :
  currentSkillLevel (setSkillLevel level s) = clamp 0 20 level.
Proof. unfold_ops. by split_cases. Qed.

Lemma setSkillLevel_sent level s :
  sent (setSkillLevel level s)
  = sent s ++ match worker s with
              | Some w =>
                  if isReady s
                  then [(w_id w, Csetoption (lit "Skill Level")
                                   (VNum (clamp 0 20 level)))]
                  else []
              | None => []
              end.
Proof. unfold_ops. split_cases; by rewrite ?app_nil_r. Qed.

Lemma setHashSize_sent mb s :
  sent (setHashSize mb s)
  = sent s ++ match worker s with
              | Some w =>
                  if isReady s
                  then [(w_id w, Csetoption (lit "Hash")
                                   (VNum (clamp 16 4096 mb)))]
                  else []
              | None => []
              end.
Proof. unfold_ops. split_cases; by rewrite ?app_nil_r. Qed.

Lemma run_skill_in_range tr s :
  Forall real_input tr →
  skill_in_range (currentSkillLevel s) →
  skill_in_range (currentSkillLevel (run tr s)).
Proof.
  intros Hreal. revert s. induction Hreal as [|e tr He _ IH]; intros s Hs; [done|].
  simpl. apply IH. destruct e;
    try (rewrite step_skill; [done|by intros x]).
  simpl. rewrite setSkillLevel_stored. by apply clamp_skill_in_range.
Qed.

End Wire.

(** C6.  For an integer argument [z], [setSkillLevel] stores [z] clamped to
    [0..20] and posts, to a ready worker only, the [Skill Level] line with
    that value; [setHashSize] posts, to a ready worker only, the [Hash]
    line with [z] clamped to [16..4096]; nothing else is posted.  In every
    run whose setter arguments are numbers and that does not set these
    two options through the raw [setOption], every [Skill Level] and
    [Hash] line ever posted (handshakes included) is in range.  The four
    values of the specification clamp as written there. *)
Theorem setters_clamp_integers
    (z : Z) (s : state) (hc : option jsnum) (tr : list event) :
  Forall real_input tr →
  Forall no_raw_override tr →
  let k := Z.max 0 (Z.min 20 z) in
  let h := Z.max 16 (Z.min 4096 z) in
  let posted (c : command) :=
    match worker s with
    | Some w => if isReady s then [(w_id w, c)] else []
    | None => []
    end in
  currentSkillLevel (setSkillLevel (num z) s) = num k
  ∧ sent (setSkillLevel (num z) s)
    = sent s ++ posted (Csetoption (lit "Skill Level") (VNum (num k)))
  ∧ sent (setHashSize (num z) s)
    = sent s ++ posted (Csetoption (lit "Hash") (VNum (num h)))
  ∧ 0 <= k <= 20
  ∧ 16 <= h <= 4096
  ∧ Forall (fun x => wire_ok (snd x)) (sent (run tr (init hc)))
  ∧ currentSkillLevel (setSkillLevel (num (-5)) s) = num 0
  ∧ currentSkillLevel (setSkillLevel (num 99) s) = num 20
  ∧ clamp 16 4096 (num 1) = num 16
  ∧ clamp 16 4096 (num 999999) = num 4096.
Proof.
  intros Hreal Hraw k h posted.
  split; [by rewrite setSkillLevel_stored, clamp_integer|].
  split.
  { rewrite setSkillLevel_sent, clamp_integer. subst posted. simpl.
    by repeat case_match. }
  split.
  { rewrite setHashSize_sent, clamp_integer. subst posted. simpl.
    by repeat case_match. }
  split; [lia|]. split; [lia|].
  split; [by apply run_wire_inv, init_wire_inv|].
  rewrite !setSkillLevel_stored, !clamp_integer. done.
Qed.

Lemma setters_clamp_integers_witness :
  let tr := [CallInitialize; WorkerMessage (DString (lit "uciok"));
             WorkerMessage (DString (lit "readyok"));
             CallSetSkillLevel (num 99); CallSetHashSize (num 1);
             CallSetOption (lit "Threads") (VNum (num 64))] in
  Forall real_input tr
  ∧ Forall no_raw_override tr
  ∧ sent (setHashSize (num 999999) (run tr (init None)))
    = sent (run tr (init None))
      ++ [(0%nat, Csetoption (lit "Hash") (VNum (num 4096)))].
Proof.
  intros tr.
  assert (Hreal : Forall real_input tr) by (repeat constructor).
  assert (Hraw : Forall no_raw_override tr)
    by (repeat constructor; vm_compute; discriminate).
  split; [exact Hreal|]. split; [exact Hraw|].
  exact (proj1 (proj2 (proj2
           (setters_clamp_integers 999999 (run tr (init None)) None tr Hreal Hraw)))).
Defined.

(** C10.  For a real argument [q], [setSkillLevel] stores the floor of [q]
    clamped to [0..20], and the lines posted to a ready worker by
    [setSkillLevel] and [setHashSize] carry the floor of [q] clamped to the
    option's range: 10.9 gives skill level 10 and 100.7 gives hash size
    100.  In every run whose setter arguments are real numbers the stored
    skill level is an integer of [0..20]. *)
Theorem setters_floor_then_clamp
    (q : Q) (s : state) (hc : option jsnum) (tr : list event) :
  Forall real_input tr →
  let posted (c : command) :=
    match worker s with
    | Some w => if isReady s then [(w_id w, c)] else []
    | None => []
    end in
  currentSkillLevel (setSkillLevel (JFin q) s)
  = num (Z.max 0 (Z.min 20 (Qfloor q)))
  ∧ sent (setSkillLevel (JFin q) s)
    = sent s ++ posted (Csetoption (lit "Skill Level")
                          (VNum (num (Z.max 0 (Z.min 20 (Qfloor q))))))
  ∧ sent (setHashSize (JFin q) s)
    = sent s ++ posted (Csetoption (lit "Hash")
                          (VNum (num (Z.max 16 (Z.min 4096 (Qfloor q))))))
  ∧ skill_in_range (currentSkillLevel (run tr (init hc)))
  ∧ currentSkillLevel (setSkillLevel (JFin (109 # 10)) s) = num 10
  ∧ clamp 16 4096 (JFin (1007 # 10)) = num 100.
Proof.
  intros Hreal posted.
  split; [by rewrite setSkillLevel_stored, clamp_finite|].
  split.
  { rewrite setSkillLevel_sent, clamp_finite. subst posted. simpl.
    by repeat case_match. }
  split.
  { rewrite setHashSize_sent, clamp_finite. subst posted. simpl.
    by repeat case_match. }
  split.
  { apply run_skill_in_range; [done|]. apply init_wire_inv. }
  split; [by rewrite setSkillLevel_stored, clamp_finite|].
  by rewrite clamp_finite.
Qed.

Lemma setters_floor_then_clamp_witness :
  let tr := [CallSetSkillLevel (JFin (-7 # 2)); CallInitialize;
             WorkerMessage (DString (lit "uciok"));
             WorkerMessage (DString (lit "readyok"));
             CallSetSkillLevel (JFin (109 # 10))] in
  Forall real_input tr
  ∧ skill_in_range (currentSkillLevel (run tr (init None))).
Proof.
  intros tr.
  assert (Hreal : Forall real_input tr) by (repeat constructor).
  split; [exact Hreal|].
  exact (proj1 (proj2 (proj2 (proj2
           (setters_floor_then_clamp 0 (init None) None tr Hreal))))).
Defined.

(** ** Disposal *)

(** C9, counterexample.  After a fallback to the single-threaded worker,
    [dispose()] leaves [usingSingleThreaded] true, although it is false in a
    new session. *)
Lemma dispose_keeps_fallback_flag :
  let s := run [CallInitialize; TimerFire 0] (init None) in
  usingSingleThreaded (init None) = false
  ∧ usingSingleThreaded s = true
  ∧ worker (dispose s) = None
  ∧ usingSingleThreaded (dispose s) = true.
Proof. vm_compute. by repeat split. Qed.

(** ** Search requests *)


Lemma search_command_depth (o : option options) (d : jsnum) :
  o ≫= depth = Some d → num_truthy d = true → search_command o = Cgo_depth d.
Proof. unfold search_command. by intros -> ->. Qed.

Lemma search_command_movetime (o : option options) :
  o ≫= depth = None ∨ (∃ d, o ≫= depth = Some d ∧ num_truthy d = false) →
  search_command o = Cgo_movetime (default (num 500) (o ≫= movetimeMs)).
Proof. unfold search_command. by intros [->|(d & -> & ->)]. Qed.

Lemma gbm_send_sent i tk s w :
  worker s = Some w →
  sent (gbm_send i tk s)
  = sent s ++ [(w_id w, Cposition_fen (tk_fen tk));
               (w_id w, search_command (tk_options tk))].
Proof.
  intros Hw. unfold_ops. rewrite Hw. simpl. by rewrite <- app_assoc.
Qed.

(** What the continuation of a suspended call posts: nothing, or the
    position followed by the search. *)
Lemma resume_sent i s w :
  worker s = Some w →
  sent (resume i s) = sent s
  ∨ ∃ tk, tasks s !! i = Some tk
          ∧ sent (resume i s)
            = sent s ++ [(w_id w, Cposition_fen (tk_fen tk));
                         (w_id w, search_command (tk_options tk))].
Proof.
  intros Hw. unfold resume.
  destruct (tasks s !! i) as [tk|] eqn:Htk; [|by left].
  assert (Hsend : sent (gbm_send i tk s) = sent s
                  ∨ ∃ tk', Some tk = Some tk'
                           ∧ sent (gbm_send i tk s)
                             = sent s ++ [(w_id w, Cposition_fen (tk_fen tk'));
                                          (w_id w, search_command (tk_options tk'))]).
  { right. exists tk. split; [done|]. by apply gbm_send_sent. }
  assert (Hthrow : ∀ e, sent (gbm_throw i tk e s) = sent s) by done.
  destruct (tk_stage tk) as [p|[p|]|]; [| | |by left].
  - destruct (initPromises s !! p) as [[|[]|]|]; try by left.
    unfold gbm_after_initialize. rewrite Hw.
    destruct (isReady s); [done|by left].
  - destruct (initPromises s !! p) as [[|[]|]|]; try by left. done.
  - done.
Qed.

(** C7, as the code has it.  A [getBestMove] call on a ready worker posts
    exactly two lines, the position and then the search; the continuation
    of a suspended call posts nothing or the same two lines.  The search
    is [go depth d] when [options.depth] is a number [d] other than zero
    and NaN; otherwise it is [go movetime t] with [t] the given
    [movetimeMs], or 500 when none is given. *)
Theorem search_request_lines
    (fen : jsstring) (o : option options) (s : state) (w : Worker) (i : nat) :
  worker s = Some w →
  isReady s = true →
  sent (snd (getBestMove fen o s))
  = sent s ++ [(w_id w, Cposition_fen fen); (w_id w, search_command o)]
  ∧ (sent (resume i s) = sent s
     ∨ ∃ tk, tasks s !! i = Some tk
             ∧ sent (resume i s)
               = sent s ++ [(w_id w, Cposition_fen (tk_fen tk));
                            (w_id w, search_command (tk_options tk))])
  ∧ (∀ d, o ≫= depth = Some d → num_truthy d = true →
          search_command o = Cgo_depth d)
  ∧ (o ≫= depth = None ∨ (∃ d, o ≫= depth = Some d ∧ num_truthy d = false) →
     search_command o = Cgo_movetime (default (num 500) (o ≫= movetimeMs))).
Proof.
  intros Hw Hr. split; [|split; [by apply resume_sent|split]].
  - unfold getBestMove. simpl. rewrite Hw. simpl.
    unfold gbm_after_initialize. simpl. rewrite Hw, Hr.
    rewrite (gbm_send_sent _ _ _ w) by done. done.
  - apply search_command_depth.
  - apply search_command_movetime.
Qed.

Lemma search_request_lines_witness :
  let s := run [CallInitialize; WorkerMessage (DString (lit "uciok"));
                WorkerMessage (DString (lit "readyok"))] (init None) in
  let fen := lit "rnbqkbnr/pppppppp/8/8/8/8/PPPPPPPP/RNBQKBNR w KQkq - 0 1" in
  let o := Some {| movetimeMs := Some (num 500); depth := Some (num 12) |} in
  worker s = Some (mkWorker 0 None [])
  ∧ isReady s = true
  ∧ sent (snd (getBestMove fen o s))
    = sent s ++ [(0%nat, Cposition_fen fen); (0%nat, Cgo_depth (num 12))].
Proof.
  intros s fen o.
  assert (Hw : worker s = Some (mkWorker 0 None [])) by reflexivity.
  assert (Hr : isReady s = true) by reflexivity.
  split; [exact Hw|]. split; [exact Hr|].
  exact (proj1 (search_request_lines fen o s _ 0%nat Hw Hr)).
Defined.

(** C7, counterexample.  With [depth: 0] present in the options the search
    posted is not depth-limited: it is [go movetime 500], or
    [go movetime 1000] when [movetimeMs: 1000] is given as well. *)
Lemma depth_zero_sends_movetime :
  let s := run [CallInitialize; WorkerMessage (DString (lit "uciok"));
                WorkerMessage (DString (lit "readyok"))] (init None) in
  let fen := lit "8/8/8/8/8/8/8/K1k5 w - - 0 1" in
  sent (snd (getBestMove fen
               (Some {| movetimeMs := None; depth := Some (num 0) |}) s))
  = sent s ++ [(0%nat, Cposition_fen fen); (0%nat, Cgo_movetime (num 500))]
  ∧ sent (snd (getBestMove fen
                 (Some {| movetimeMs := Some (num 1000); depth := Some (num 0) |}) s))
    = sent s ++ [(0%nat, Cposition_fen fen); (0%nat, Cgo_movetime (num 1000))].
Proof. vm_compute. by split. Qed.


(** ** One live worker *)

Section Engine.

#[local] Arguments lit : simpl never.
#[local] Arguments startsWith : simpl never.
#[local] Arguments includes : simpl never.
#[local] Arguments parseBestMove : simpl never.
#[local] Arguments threads : simpl never.
#[local] Arguments cores : simpl never.

Ltac close_cases :=
  split_cases; simplify_eq; intros; rewrite ?app_nil_r in *;
  try done; try congruence.


Lemma onMessage_live p d s :
  live (onMessage p d s) = live s
  ∧ terminated (onMessage p d s) = terminated s
  ∧ launched (onMessage p d s) = launched s.
Proof. unfold live. unfold_ops. split_cases; simplify_eq; by repeat split. Qed.

Ltac acc_tac H :=
  unfold accounted, live in *; unfold_ops; split_cases; simplify_eq;
  rewrite ?length_app, ?Nat.add_1_r, ?seq_S; simpl in *;
  rewrite ?app_nil_r in *; rewrite <- ?H, <- ?app_assoc; try done.

Lemma initializeWorker_accounted r u b s :
  accounted s → accounted (initializeWorker r u b s).
Proof. intros H. acc_tac H. Qed.

Lemma step_accounted e s : accounted s → accounted (step e s).
Proof.
  intros H. destruct e; simpl.
  - unfold initialize. destruct (pendingInit s); simpl; [done|]. acc_tac H.
  - unfold getBestMove. simpl. destruct (worker s) eqn:Hw; simpl.
    + unfold accounted, live in *. unfold_ops. rewrite ?Hw in *. acc_tac H.
    + unfold initialize. simpl. unfold accounted, live in *.
      destruct (pendingInit s); unfold_ops; simpl; rewrite ?Hw in *; simpl in *;
        acc_tac H.
  - acc_tac H.
  - acc_tac H.
  - acc_tac H.
  - acc_tac H.
  - unfold worker_message. destruct (worker s) as [w|] eqn:Hw; [|done].
    apply (dispatch_search_inv accounted).
    + intros s' p. unfold accounted.
      destruct (onMessage_live p d s') as (-> & -> & ->). done.
    + destruct (w_init w); [|done]. unfold accounted, live in *.
      unfold_ops. rewrite ?Hw in *. acc_tac H.
  - acc_tac H.
  - acc_tac H.
  - acc_tac H.
Qed.

(** X1.  In every run, the workers terminated so far followed by the live
    worker, if there is one, are exactly the workers created so far, in
    the order of creation: every worker that was replaced or disposed has
    been terminated, none twice, and at most the last one created is
    alive. *)
Theorem one_live_worker (hc : option jsnum) (tr : list event) :
  let s := run tr (init hc) in
  terminated s ++ live s = seq 0 (length (launched s))
  ∧ NoDup (terminated s ++ live s)
  ∧ (length (live s) ≤ 1)%nat.
Proof.
  intros s.
  assert (H : accounted s).
  { subst s. generalize (init hc), (eq_refl : accounted (init hc)).
    induction tr as [|e tr IH]; intros s0 H0; [done|].
    simpl. by apply IH, step_accounted. }
  split; [exact H|]. split.
  - rewrite H. apply NoDup_ListNoDup, List.seq_NoDup.
  - unfold live. destruct (worker s); simpl; lia.
Qed.

(** ** Launching a worker *)

(** The five lines of the handshake, for worker [wid]. *)
Lemma initializeWorker_eq r u b s :
  initializeWorker r u b s
  = mkState
      (Some (mkWorker (length (launched s))
               (Some (mkInitClosure b (length (timers s)) r)) []))
      (isReady s) (pendingInit s) (currentSkillLevel s) b
      (hardwareConcurrency s) (launched s ++ [u]) (terminated s ++ live s)
      (sent s ++ [(length (launched s), Cuci);
                  (length (launched s), Cucinewgame);
                  (length (launched s),
                   Csetoption (lit "Threads") (VNum (threads b s)));
                  (length (launched s),
                   Csetoption (lit "Skill Level") (VNum (currentSkillLevel s)));
                  (length (launched s),
                   Csetoption (lit "Ponder") (VStr (lit "false")))])
      (timers s ++ [mkTimer b r TimerPending])
      (initPromises s) (searchPromises s) (tasks s).
Proof.
  unfold initializeWorker, terminate_worker, postMessage, live, threads, cores.
  destruct (worker s); simpl; rewrite <- ?app_assoc, ?app_nil_r; reflexivity.
Qed.

Lemma initialize_fresh s :
  pendingInit s = None →
  initialize s
  = (length (initPromises s),
     set_pendingInit
       (initializeWorker (length (initPromises s)) multi_url false
          (set_initPromises s (initPromises s ++ [Pending])))
       (Some (length (initPromises s)))).
Proof. unfold initialize. by intros ->. Qed.

Lemma Qle_bool_false (a b : Q) : Qle_bool a b = false → (b < a)%Q.
Proof.
  intros H. apply Qnot_le_lt. intros Hle. apply Qle_bool_iff in Hle. congruence.
Qed.

(** The thread count is a number from 1 to 8 whatever the browser reports. *)
Lemma threads_bounds b s :
  ∃ q, threads b s = JFin q ∧ (1 <= q)%Q ∧ (q <= 8)%Q.
Proof.
  unfold threads. destruct b; [exists 1%Q; repeat split; done|].
  assert (Hfin : ∀ q, ∃ q', js_max (num 1) (js_min (JFin q) (num 8)) = JFin q'
                            ∧ (1 <= q')%Q ∧ (q' <= 8)%Q).
  { intros q. unfold js_max, js_min, js_lt, num.
    destruct (Qle_bool q (inject_Z 8)) eqn:E8; simpl.
    - destruct (Qle_bool q (inject_Z 1)) eqn:E1; simpl.
      + exists (inject_Z 1). repeat split; done.
      + exists q. repeat split; [|by apply Qle_bool_iff].
        apply Qlt_le_weak. by apply Qle_bool_false.
    - exists (inject_Z 8). repeat split; done. }
  unfold cores. destruct (hardwareConcurrency s) as [[q| | |]|]; simpl.
  - destruct (negb (Qeq_bool q 0)); [apply Hfin|apply (Hfin 2%Q)].
  - exists 8%Q. repeat split; done.
  - exists 1%Q. repeat split; done.
  - apply (Hfin 2%Q).
  - apply (Hfin 2%Q).
Qed.

(** X2.  Every worker launch posts exactly five lines to the new worker,
    in this order: [uci], [ucinewgame], the thread count, the stored skill
    level and [Ponder false].  The thread count is 1 for the
    single-threaded script; for the multi-threaded script it is a number
    from 1 to 8 whatever [navigator.hardwareConcurrency] holds, and it is
    2 when the browser reports none, zero or NaN. *)
Theorem handshake_lines (r : nat) (u : jsstring) (b : bool) (s : state) :
  let wid := length (launched s) in
  sent (initializeWorker r u b s)
  = sent s ++ [(wid, Cuci); (wid, Cucinewgame);
               (wid, Csetoption (lit "Threads") (VNum (threads b s)));
               (wid, Csetoption (lit "Skill Level") (VNum (currentSkillLevel s)));
               (wid, Csetoption (lit "Ponder") (VStr (lit "false")))]
  ∧ w_id <$> worker (initializeWorker r u b s) = Some wid
  ∧ threads true s = num 1
  ∧ (∃ q, threads b s = JFin q ∧ (1 <= q)%Q ∧ (q <= 8)%Q)
  ∧ threads false (init None) = num 2
  ∧ threads false (init (Some (num 0))) = num 2
  ∧ threads false (init (Some JNaN)) = num 2
  ∧ threads false (init (Some JPosInf)) = num 8.
Proof.
  intros wid. rewrite initializeWorker_eq. simpl.
  repeat split; try done. apply threads_bounds.
Qed.

(** ** The fallback *)

Lemma timer_fire_launch t r s :
  timers s !! t = Some (mkTimer false r TimerPending) →
  isReady s = false →
  timer_fire t s
  = initializeWorker r single_url true
      (set_timers s (<[t := mkTimer false r TimerFired]> (timers s))).
Proof. intros Ht Hr. unfold timer_fire. rewrite Ht. simpl. by rewrite Hr. Qed.

Lemma worker_error_launch s id ic l :
  worker s = Some (mkWorker id (Some ic) l) →
  ic_singleThreaded ic = false →
  worker_error s = initializeWorker (ic_resolve ic) single_url true s.
Proof. intros Hw Hs. unfold worker_error, handleError. by rewrite Hw, Hs. Qed.

Lemma handleMessage_readyok_eq ic c t s :
  includes (lit "uciok") (c :: t) = false →
  includes (lit "readyok") (c :: t) = true →
  handleMessage ic (DString (c :: t)) s
  = set_initPromises
      (remove_init_listeners (set_isReady (clearTimeout (ic_timeout ic) s) true))
      (settle (ic_resolve ic) (Fulfilled tt) (initPromises s)).
Proof.
  intros Hu Hr. unfold handleMessage. cbn [text_of]. rewrite Hu, Hr.
  f_equal. unfold remove_init_listeners, clearTimeout.
  repeat case_match; reflexivity.
Qed.

Lemma readyok_literal :
  ∃ c t, lit "readyok" = c :: t
         ∧ includes (lit "uciok") (c :: t) = false
         ∧ includes (lit "readyok") (c :: t) = true
         ∧ startsWith (lit "bestmove") (c :: t) = false.
Proof. eexists _, _. split; [vm_compute; reflexivity|]. by vm_compute. Qed.

(** What a [readyok] does to a session whose worker is in its handshake
    and has no search listener. *)
Lemma readyok_handshake s id ic :
  worker s = Some (mkWorker id (Some ic) []) →
  let s3 := step (WorkerMessage (DString (lit "readyok"))) s in
  worker s3 = Some (mkWorker id None [])
  ∧ isReady s3 = true
  ∧ isSingleThreaded s3 = isSingleThreaded s
  ∧ pendingInit s3 = pendingInit s
  ∧ initPromises s3 = settle (ic_resolve ic) (Fulfilled tt) (initPromises s)
  ∧ launched s3 = launched s
  ∧ terminated s3 = terminated s
  ∧ sent s3 = sent s
  ∧ tasks s3 = tasks s
  ∧ searchPromises s3 = searchPromises s.
Proof.
  intros Hw. cbn [step]. unfold worker_message. rewrite Hw.
  cbn [w_init w_search foldl].
  destruct readyok_literal as (c & t & Hlit & Hu & Hk & _).
  rewrite Hlit, handleMessage_readyok_eq by done.
  unfold remove_init_listeners, clearTimeout.
  destruct (timers s !! ic_timeout ic) as [[? ? []]|]; cbn; rewrite Hw; cbn;
    by repeat split.
Qed.

(** X3.  Take an [initialize()] that starts a new attempt while the
    session is not ready.  If the timer of the multi-threaded worker then
    fires, or that worker reports an error, the worker is terminated and a
    worker is launched from the single-threaded script, with thread count
    1 and the same promise still pending.  A [readyok] from the new worker
    then makes the session ready on the single-threaded variant and
    fulfils the promise returned by [initialize()]. *)
Theorem fallback_restart (s : state) (e : event) :
  pendingInit s = None →
  isReady s = false →
  e = TimerFire (length (timers s)) ∨ e = WorkerError →
  let p := fst (initialize s) in
  let s2 := step e (snd (initialize s)) in
  let s3 := step (WorkerMessage (DString (lit "readyok"))) s2 in
  launched s2 = launched s ++ [multi_url; single_url]
  ∧ terminated s2 = terminated s ++ live s ++ [length (launched s)]
  ∧ usingSingleThreaded s2 = true
  ∧ isReady s2 = false
  ∧ (∃ pre, sent s2
            = pre ++ [(S (length (launched s)), Cuci);
                      (S (length (launched s)), Cucinewgame);
                      (S (length (launched s)),
                       Csetoption (lit "Threads") (VNum (num 1)));
                      (S (length (launched s)),
                       Csetoption (lit "Skill Level") (VNum (currentSkillLevel s)));
                      (S (length (launched s)),
                       Csetoption (lit "Ponder") (VStr (lit "false")))])
  ∧ initPromises s2 !! p = Some Pending
  ∧ worker s3 = Some (mkWorker (S (length (launched s))) None [])
  ∧ isReady s3 = true
  ∧ usingSingleThreaded s3 = true
  ∧ pendingInit s3 = Some p
  ∧ initPromises s3 !! p = Some (Fulfilled tt).
Proof.
  intros Hp Hr He p s2 s3.
  destruct readyok_literal as (c & t & Hlit & Hu & Hk & _).
  assert (E2 : ∃ ts pre,
              s2 = initializeWorker (length (initPromises s)) single_url true
                     (mkState
                        (Some (mkWorker (length (launched s))
                                 (Some (mkInitClosure false (length (timers s))
                                          (length (initPromises s)))) []))
                        false (Some (length (initPromises s)))
                        (currentSkillLevel s) false (hardwareConcurrency s)
                        (launched s ++ [multi_url]) (terminated s ++ live s)
                        pre ts
                        (initPromises s ++ [Pending]) (searchPromises s)
                        (tasks s))
              ∧ length ts = S (length (timers s))).
  { subst s2 s3 p. rewrite initialize_fresh by done. cbn [fst snd].
    rewrite initializeWorker_eq.
    change (live (set_initPromises s (initPromises s ++ [Pending]))) with (live s).
    simpl. rewrite Hr. destruct He as [->| ->]; cbn [step].
    - erewrite timer_fire_launch; [|simpl; by apply list_lookup_middle|done].
      simpl. eexists _, _. split; [reflexivity|].
      simpl. rewrite length_insert, length_app. simpl. lia.
    - erewrite worker_error_launch; [|done..].
      simpl. eexists _, _. split; [reflexivity|].
      simpl. rewrite length_app. simpl. lia. }
  destruct E2 as (ts & pre & E2 & Hts).
  assert (Hp2 : fst (initialize s) = length (initPromises s))
    by (by rewrite initialize_fresh).
  subst p. rewrite Hp2. clear Hp2.
  assert (Hw2 : worker s2
                = Some (mkWorker (S (length (launched s)))
                          (Some (mkInitClosure true (length ts)
                                   (length (initPromises s)))) [])).
  { rewrite E2, initializeWorker_worker. cbn. rewrite length_app. cbn.
    by rewrite Nat.add_1_r. }
  destruct (readyok_handshake s2 _ _ Hw2)
    as (Hw3 & Hr3 & Hs3 & Hp3 & Hi3 & _).
  fold s3 in Hw3, Hr3, Hs3, Hp3, Hi3.
  unfold usingSingleThreaded.
  rewrite Hw3, Hr3, Hs3, Hp3, Hi3. cbn [ic_resolve]. clearbody s3. clear Hw2.
  rewrite E2. rewrite initializeWorker_eq. cbn.
  rewrite !length_app. cbn. rewrite !Nat.add_1_r.
  split; [by rewrite <- app_assoc|]. split; [by rewrite <- app_assoc|].
  split; [done|]. split; [done|]. split; [by eexists|].
  split; [by rewrite lookup_app_r, Nat.sub_diag|].
  repeat split.
  apply settle_lookup_pending. by rewrite lookup_app_r, Nat.sub_diag.
Qed.

Lemma fallback_restart_witness :
  let s := run [CallInitialize; TimerFire 0; CallDispose] (init None) in
  pendingInit s = None
  ∧ isReady s = false
  ∧ launched (step WorkerError (snd (initialize s)))
    = launched s ++ [multi_url; single_url].
Proof.
  intros s.
  assert (H1 : pendingInit s = None) by reflexivity.
  assert (H2 : isReady s = false) by reflexivity.
  split; [exact H1|]. split; [exact H2|].
  exact (proj1 (fallback_restart s WorkerError H1 H2 (or_intror eq_refl))).
Defined.

(** ** Messages and their listeners *)

(** The dispatch to the search listeners leaves everything but the search
    promises and the list of search listeners as it is. *)
Lemma dispatch_search_frame d l s :
  let s' := foldl (fun s p => onMessage p d s) s l in
  isReady s' = isReady s
  ∧ pendingInit s' = pendingInit s
  ∧ isSingleThreaded s' = isSingleThreaded s
  ∧ launched s' = launched s
  ∧ terminated s' = terminated s
  ∧ sent s' = sent s
  ∧ timers s' = timers s
  ∧ initPromises s' = initPromises s
  ∧ tasks s' = tasks s
  ∧ w_id <$> worker s' = w_id <$> worker s
  ∧ w_init <$> worker s' = w_init <$> worker s.
Proof.
  apply (dispatch_search_inv
           (fun s' =>
              isReady s' = isReady s
              ∧ pendingInit s' = pendingInit s
              ∧ isSingleThreaded s' = isSingleThreaded s
              ∧ launched s' = launched s
              ∧ terminated s' = terminated s
              ∧ sent s' = sent s
              ∧ timers s' = timers s
              ∧ initPromises s' = initPromises s
              ∧ tasks s' = tasks s
              ∧ w_id <$> worker s' = w_id <$> worker s
              ∧ w_init <$> worker s' = w_init <$> worker s));
    [|by repeat split].
  intros s' p (<- & <- & <- & <- & <- & <- & <- & <- & <- & <- & <-).
  unfold onMessage, remove_search_listener.
  destruct (text_of d); [by repeat split|].
  destruct (startsWith _ _); [|by repeat split].
  destruct (worker s') eqn:E; simpl; rewrite ?E; by repeat split.
Qed.

Lemma onMessage_ignored p d s :
  text_of d = [] ∨ startsWith (lit "bestmove") (text_of d) = false →
  onMessage p d s = s.
Proof.
  unfold onMessage. destruct (text_of d); [done|].
  by intros [?| ->].
Qed.

Lemma handleMessage_ignored ic d s :
  text_of d = []
  ∨ (includes (lit "uciok") (text_of d) = false
     ∧ includes (lit "readyok") (text_of d) = false) →
  handleMessage ic d s = s.
Proof.
  unfold handleMessage. destruct (text_of d); [done|].
  by intros [?|[-> ->]].
Qed.

(** X4.  A message is ignored, leaving the session exactly as it was,
    when its data is not a string or is the empty string, and also when
    it concerns no attached listener: the handshake listener is detached
    or the text holds neither [uciok] nor [readyok], and no search
    listener is attached or the text does not start with [bestmove]. *)
Theorem unrelated_message_ignored (d : msgdata) (s : state) (w : Worker) :
  worker s = Some w →
  text_of d = []
  ∨ ((w_init w = None
      ∨ (includes (lit "uciok") (text_of d) = false
         ∧ includes (lit "readyok") (text_of d) = false))
     ∧ (w_search w = []
        ∨ startsWith (lit "bestmove") (text_of d) = false)) →
  step (WorkerMessage d) s = s
  ∧ step (WorkerMessage DOther) s = s.
Proof.
  intros Hw H.
  assert (Hfold : ∀ d' l s',
            text_of d' = [] ∨ startsWith (lit "bestmove") (text_of d') = false →
            foldl (fun s p => onMessage p d' s) s' l = s').
  { intros d' l s' Hd. induction l as [|p l IH]; [done|].
    simpl. by rewrite onMessage_ignored. }
  split; cbn [step]; unfold worker_message; rewrite Hw.
  - destruct H as [H|[Hi Hs]].
    + rewrite Hfold by (by left). destruct (w_init w); [|done].
      apply handleMessage_ignored. by left.
    + assert (Hh : match w_init w with
                   | Some ic => handleMessage ic d s
                   | None => s
                   end = s).
      { destruct Hi as [->|Hi]; [done|]. destruct (w_init w); [|done].
        apply handleMessage_ignored. by right. }
      rewrite Hh. destruct Hs as [->|Hs]; [done|]. apply Hfold. by right.
  - rewrite Hfold by (by left). by destruct (w_init w).
Qed.

Lemma unrelated_message_ignored_witness :
  let s := run [CallInitialize] (init None) in
  let d := DString (lit "info depth 12 score cp 31 pv e2e4 e7e5") in
  worker s = Some (mkWorker 0 (Some (mkInitClosure false 0 0)) [])
  ∧ step (WorkerMessage d) s = s.
Proof.
  intros s d.
  assert (Hw : worker s = Some (mkWorker 0 (Some (mkInitClosure false 0 0)) []))
    by reflexivity.
  split; [exact Hw|].
  refine (proj1 (unrelated_message_ignored d s _ Hw _)).
  right. split; [right; split; by vm_compute|left; reflexivity].
Defined.

(** X5.  During the handshake a message whose text holds [uciok] makes
    the session post exactly one line, [isready], to the current worker,
    and changes nothing else: the session does not become ready, even if
    the same text also holds [readyok]. *)
Theorem uciok_posts_isready
    (text : jsstring) (s : state) (w : Worker) (ic : init_closure) :
  worker s = Some w →
  w_init w = Some ic →
  includes (lit "uciok") text = true →
  startsWith (lit "bestmove") text = false →
  step (WorkerMessage (DString text)) s
  = set_sent s (sent s ++ [(w_id w, Cisready)]).
Proof.
  intros Hw Hi Hu Hb. cbn [step]. unfold worker_message. rewrite Hw, Hi.
  assert (Hne : text ≠ []) by (intros ->; by vm_compute in Hu).
  assert (Hh : handleMessage ic (DString text) s
               = set_sent s (sent s ++ [(w_id w, Cisready)])).
  { unfold handleMessage, postMessage. cbn [text_of].
    destruct text; [done|]. by rewrite Hu, Hw. }
  rewrite Hh. generalize (set_sent s (sent s ++ [(w_id w, Cisready)])).
  intros s'. induction (w_search w) as [|p l IH]; [done|].
  simpl. rewrite onMessage_ignored; [done|by right].
Qed.

Lemma uciok_posts_isready_witness :
  let s := run [CallInitialize] (init None) in
  let text := lit "id name Stockfish 16 uciok readyok" in
  worker s = Some (mkWorker 0 (Some (mkInitClosure false 0 0)) [])
  ∧ includes (lit "uciok") text = true
  ∧ startsWith (lit "bestmove") text = false
  ∧ step (WorkerMessage (DString text)) s
    = set_sent s (sent s ++ [(0%nat, Cisready)]).
Proof.
  intros s text.
  assert (Hw : worker s = Some (mkWorker 0 (Some (mkInitClosure false 0 0)) []))
    by reflexivity.
  assert (Hu : includes (lit "uciok") text = true) by (by vm_compute).
  assert (Hb : startsWith (lit "bestmove") text = false) by (by vm_compute).
  split; [exact Hw|]. split; [exact Hu|]. split; [exact Hb|].
  exact (uciok_posts_isready text s _ _ Hw eq_refl Hu Hb).
Defined.

Lemma includes_nil_false p : p ≠ [] → includes p [] = false.
Proof. by destruct p. Qed.

(** X6.  A message with [readyok] (and without [uciok]) received during
    the handshake makes the session ready, resolves the promise of the
    handshake, detaches the error listener and cancels the handshake's
    timer: a later error of the worker, or that timer firing, changes
    nothing. *)
Theorem readyok_disarms
    (text : jsstring) (s : state) (w : Worker) (ic : init_closure) :
  worker s = Some w →
  w_init w = Some ic →
  includes (lit "uciok") text = false →
  includes (lit "readyok") text = true →
  let s' := step (WorkerMessage (DString text)) s in
  isReady s' = true
  ∧ initPromises s' = settle (ic_resolve ic) (Fulfilled tt) (initPromises s)
  ∧ w_init <$> worker s' = Some None
  ∧ step WorkerError s' = s'
  ∧ step (TimerFire (ic_timeout ic)) s' = s'.
Proof.
  intros Hw Hi Hu Hr s'.
  destruct text as [|c t]; [by vm_compute in Hr|].
  subst s'. cbn [step]. unfold worker_message. rewrite Hw, Hi.
  rewrite handleMessage_readyok_eq by done.
  set (h := set_initPromises _ _).
  destruct (dispatch_search_frame (DString (c :: t)) (w_search w) h)
    as (Hr' & _ & _ & _ & _ & _ & Ht' & Hp' & _ & _ & Hi').
  set (s' := foldl _ h (w_search w)) in *.
  assert (Hwi : w_init <$> worker s' = Some None).
  { rewrite Hi'. subst h. unfold remove_init_listeners, clearTimeout.
    destruct (timers s !! ic_timeout ic) as [[? ? []]|]; cbn; by rewrite Hw. }
  assert (Htm : ∀ b r, timers s' !! ic_timeout ic ≠ Some (mkTimer b r TimerPending)).
  { intros b r. rewrite Ht'. subst h. unfold remove_init_listeners, clearTimeout.
    destruct (timers s !! ic_timeout ic) as [[b' r' []]|] eqn:E;
      cbn; rewrite ?Hw; cbn; rewrite ?E; try done.
    rewrite list_lookup_insert_eq by (by eapply lookup_lt_Some). done. }
  split.
  { rewrite Hr'. subst h. unfold remove_init_listeners. cbn.
    by destruct (worker (clearTimeout (ic_timeout ic) s)). }
  split; [by rewrite Hp'|]. split; [done|]. split.
  - cbn [step]. unfold worker_error.
    destruct (worker s') as [[id [ic'|] l]|]; done.
  - cbn [step]. unfold timer_fire.
    destruct (timers s' !! ic_timeout ic) as [[b r []]|] eqn:E; try done.
    by destruct (Htm b r).
Qed.

Lemma readyok_disarms_witness :
  let s := run [CallInitialize; WorkerMessage (DString (lit "uciok"))] (init None) in
  worker s = Some (mkWorker 0 (Some (mkInitClosure false 0 0)) [])
  ∧ includes (lit "uciok") (lit "readyok") = false
  ∧ includes (lit "readyok") (lit "readyok") = true
  ∧ isReady (step (WorkerMessage (DString (lit "readyok"))) s) = true.
Proof.
  intros s.
  assert (Hw : worker s = Some (mkWorker 0 (Some (mkInitClosure false 0 0)) []))
    by reflexivity.
  assert (Hu : includes (lit "uciok") (lit "readyok") = false) by (by vm_compute).
  assert (Hr : includes (lit "readyok") (lit "readyok") = true) by (by vm_compute).
  split; [exact Hw|]. split; [exact Hu|]. split; [exact Hr|].
  exact (proj1 (readyok_disarms (lit "readyok") s _ _ Hw eq_refl Hu Hr)).
Defined.







(** ** Timers *)

Lemma timer_fire_idem t s0 : timer_fire t (timer_fire t s0) = timer_fire t s0.
Proof.
  remember (timer_fire t s0) as s1 eqn:E1.
  unfold timer_fire in E1.
  destruct (timers s0 !! t) as [[b r st]|] eqn:E.
  2:{ subst s1. unfold timer_fire. by rewrite E. }
  assert (Hlt : (t < length (timers s0))%nat) by (by eapply lookup_lt_Some).
  destruct st; try (subst s1; unfold timer_fire; by rewrite E).
  cbn [isReady set_timers] in E1.
  destruct (negb (isReady s0) && negb b).
  - rewrite initializeWorker_eq in E1. subst s1. unfold timer_fire.
    cbn [timers set_timers].
    rewrite lookup_app_l by (by rewrite length_insert).
    rewrite list_lookup_insert_eq by done. reflexivity.
  - subst s1. unfold timer_fire. cbn [timers set_timers].
    rewrite list_lookup_insert_eq by done. reflexivity.
Qed.

(** X8.  A handshake timer acts at most once: firing it a second time
    changes nothing.  When the session is ready, or when the timer was
    armed for a single-threaded worker, firing it changes nothing but the
    timer table: no worker is terminated or launched and nothing is
    posted. *)
Theorem timer_acts_at_most_once (t : nat) (s : state) :
  isReady s = true ∨ tm_singleThreaded <$> timers s !! t = Some true →
  timer_fire t (timer_fire t s) = timer_fire t s
  ∧ timer_fire t s = set_timers s (timers (timer_fire t s))
  ∧ ∀ s0, timer_fire t (timer_fire t s0) = timer_fire t s0.
Proof.
  intros H. split; [apply timer_fire_idem|]. split; [|apply timer_fire_idem].
  unfold timer_fire. destruct (timers s !! t) as [[b r st]|] eqn:E;
    [|by destruct s].
  destruct st; try by destruct s.
  cbn [isReady set_timers].
  destruct H as [->|H]; [done|]. cbn in H. injection H as ->.
  by rewrite andb_false_r.
Qed.

Lemma timer_acts_at_most_once_witness :
  let s := run [CallInitialize; TimerFire 0] (init None) in
  tm_singleThreaded <$> timers s !! 1%nat = Some true
  ∧ timer_fire 1 s = set_timers s (timers (timer_fire 1 s)).
Proof.
  intros s.
  assert (H : tm_singleThreaded <$> timers s !! 1%nat = Some true) by reflexivity.
  split; [exact H|].
  exact (proj1 (proj2 (timer_acts_at_most_once 1 s (or_intror H)))).
Defined.

(** X9.  [dispose()] does not cancel the handshake timer.  If the timer
    armed for a multi-threaded worker is still pending when a session
    with a worker is disposed, its firing launches a single-threaded
    worker in the disposed session, with no initialization pending. *)
Theorem timer_survives_dispose (s : state) (w : Worker) (t r : nat) :
  worker s = Some w →
  timers s !! t = Some (mkTimer false r TimerPending) →
  let s' := step (TimerFire t) (dispose s) in
  worker (dispose s) = None
  ∧ timers (dispose s) = timers s
  ∧ worker s'
    = Some (mkWorker (length (launched s))
              (Some (mkInitClosure true (length (timers s)) r)) [])
  ∧ launched s' = launched s ++ [single_url]
  ∧ pendingInit s' = None
  ∧ isReady s' = false
  ∧ usingSingleThreaded s' = true.
Proof.
  intros Hw Ht s'.
  assert (Ed : dispose s
               = set_pendingInit
                   (set_isReady
                      (set_worker (set_terminated s (terminated s ++ [w_id w])) None)
                      false) None).
  { unfold dispose, terminate_worker. by rewrite Hw. }
  subst s'. rewrite Ed. cbn [step].
  rewrite (timer_fire_launch t r) by done.
  rewrite initializeWorker_eq. cbn. rewrite length_insert. by repeat split.
Qed.

Lemma timer_survives_dispose_witness :
  let s := run [CallInitialize] (init None) in
  worker s = Some (mkWorker 0 (Some (mkInitClosure false 0 0)) [])
  ∧ timers s !! 0%nat = Some (mkTimer false 0 TimerPending)
  ∧ launched (step (TimerFire 0) (dispose s)) = launched s ++ [single_url].
Proof.
  intros s.
  assert (Hw : worker s = Some (mkWorker 0 (Some (mkInitClosure false 0 0)) []))
    by reflexivity.
  assert (Ht : timers s !! 0%nat = Some (mkTimer false 0 TimerPending))
    by reflexivity.
  split; [exact Hw|]. split; [exact Ht|].
  exact (proj1 (proj2 (proj2 (proj2 (timer_survives_dispose s _ 0 0 Hw Ht))))).
Defined.

(** ** Options before and after the handshake *)



(** X11.  What the clamp of the option setters does to every number:
    NaN goes through unchanged, and every other argument, the infinities
    included, gives an integer between the bounds.  So [setSkillLevel(NaN)]
    stores NaN, and [setSkillLevel] of anything else stores an integer of
    0..20. *)
Theorem clamp_total (lo hi : Z) (x : jsnum) (s : state) :
  lo <= hi →
  match x with
  | JNaN => clamp lo hi x = JNaN
  | JPosInf => clamp lo hi x = num hi
  | JNegInf => clamp lo hi x = num lo
  | JFin q => clamp lo hi x = num (Z.max lo (Z.min hi (Qfloor q)))
  end
  ∧ (x ≠ JNaN → ∃ k, clamp lo hi x = num k ∧ lo <= k <= hi)
  ∧ currentSkillLevel (setSkillLevel JNaN s) = JNaN
  ∧ (x ≠ JNaN → skill_in_range (currentSkillLevel (setSkillLevel x s))).
Proof.
  intros Hle.
  assert (Hinf : ∀ lo hi, lo <= hi → clamp lo hi JPosInf = num hi).
  { clear. intros lo hi Hle. unfold clamp. cbn [js_floor].
    change (js_min (num hi) JPosInf) with (num hi).
    rewrite js_max_num. f_equal. lia. }
  assert (Hninf : clamp lo hi JNegInf = num lo) by done.
  assert (Hall : ∀ lo' hi', lo' <= hi' → x ≠ JNaN →
                            ∃ k, clamp lo' hi' x = num k ∧ lo' <= k <= hi').
  { clear Hle Hninf. intros lo' hi' Hle Hx. destruct x as [q| | |]; [| | |done].
    - rewrite clamp_finite. eexists; split; [done|lia].
    - exists hi'. split; [by apply Hinf|lia].
    - exists lo'. split; [done|lia]. }
  split; [destruct x; auto using clamp_finite|].
  split; [by apply Hall|]. split; [by rewrite setSkillLevel_stored|].
  intros Hx. rewrite setSkillLevel_stored. apply (Hall 0 20); [lia|done].
Qed.

Lemma clamp_total_witness :
  16 <= 4096
  ∧ clamp 16 4096 JPosInf = num 4096.
Proof.
  assert (H : 16 <= 4096) by lia.
  split; [exact H|].
  exact (proj1 (clamp_total 16 4096 JPosInf (init None) H)).
Defined.

(** ** Searches on a session that is not ready *)

Lemma uciok_literal :
  ∃ c t, lit "uciok" = c :: t ∧ includes (lit "uciok") (c :: t) = true.
Proof. eexists _, _. split; [vm_compute; reflexivity|]. by vm_compute. Qed.

(** What a [uciok] does to a session whose worker is in its handshake and
    has no search listener. *)
Lemma uciok_handshake s id ic :
  worker s = Some (mkWorker id (Some ic) []) →
  step (WorkerMessage (DString (lit "uciok"))) s
  = set_sent s (sent s ++ [(id, Cisready)]).
Proof.
  intros Hw. cbn [step]. unfold worker_message. rewrite Hw.
  cbn [w_init w_search foldl].
  destruct uciok_literal as (c & t & Hlit & Hu).
  rewrite Hlit. unfold handleMessage, postMessage. cbn [text_of].
  by rewrite Hu, Hw.
Qed.



Lemma gbm_send_fields i tk s w :
  worker s = Some w →
  worker (gbm_send i tk s)
  = Some (mkWorker (w_id w) (w_init w) (w_search w ++ [tk_promise tk]))
  ∧ searchPromises (gbm_send i tk s) = searchPromises s
  ∧ isReady (gbm_send i tk s) = isReady s.
Proof. intros Hw. unfold gbm_send, postMessage, set_stage. by rewrite Hw. Qed.

(** X13.  A [getBestMove] on a session with no worker and no pending
    initialization starts the initialization itself: it launches the
    multi-threaded worker, posts only the handshake and waits.  After
    [uciok] and [readyok] its continuation posts the position and the
    search to that worker and leaves the call pending with its listener
    attached. *)
Theorem search_on_new_session
    (fen : jsstring) (o : option options) (s : state) :
  worker s = None →
  pendingInit s = None →
  let i := length (tasks s) in
  let wid := length (launched s) in
  let p := length (searchPromises s) in
  let s1 := snd (getBestMove fen o s) in
  let s4 := run [WorkerMessage (DString (lit "uciok"));
                 WorkerMessage (DString (lit "readyok")); Resume i] s1 in
  fst (getBestMove fen o s) = p
  ∧ launched s1 = launched s ++ [multi_url]
  ∧ sent s1
    = sent s ++ [(wid, Cuci); (wid, Cucinewgame);
                 (wid, Csetoption (lit "Threads") (VNum (threads false s)));
                 (wid, Csetoption (lit "Skill Level") (VNum (currentSkillLevel s)));
                 (wid, Csetoption (lit "Ponder") (VStr (lit "false")))]
  ∧ resume i s1 = s1
  ∧ sent s4
    = sent s1 ++ [(wid, Cisready); (wid, Cposition_fen fen);
                  (wid, search_command o)]
  ∧ worker s4 = Some (mkWorker wid None [p])
  ∧ isReady s4 = true
  ∧ searchPromises s4 !! p = Some Pending.
Proof.
  intros Hw Hp i wid p s1 s4.
  set (pi := length (initPromises s)).
  set (tk := mkTask fen o p (AwaitInitialize pi)).
  assert (E : getBestMove fen o s
              = (p, mkState
                      (Some (mkWorker wid
                               (Some (mkInitClosure false (length (timers s)) pi)) []))
                      (isReady s) (Some pi) (currentSkillLevel s) false
                      (hardwareConcurrency s) (launched s ++ [multi_url])
                      (terminated s)
                      (sent s ++ [(wid, Cuci); (wid, Cucinewgame);
                                  (wid, Csetoption (lit "Threads")
                                          (VNum (threads false s)));
                                  (wid, Csetoption (lit "Skill Level")
                                          (VNum (currentSkillLevel s)));
                                  (wid, Csetoption (lit "Ponder")
                                          (VStr (lit "false")))])
                      (timers s ++ [mkTimer false pi TimerPending])
                      (initPromises s ++ [Pending])
                      (searchPromises s ++ [Pending])
                      (alter (fun tk => mkTask (tk_fen tk) (tk_options tk)
                                          (tk_promise tk) (AwaitInitialize pi))
                         i (tasks s ++ [mkTask fen o p Finished])))).
  { unfold getBestMove. cbn [worker set_tasks set_searchPromises]. rewrite Hw.
    rewrite initialize_fresh by done. rewrite initializeWorker_eq.
    unfold set_stage, live, threads, cores. cbn. rewrite Hw, app_nil_r.
    reflexivity. }
  assert (Htk : ∀ l, alter (fun tk => mkTask (tk_fen tk) (tk_options tk)
                                        (tk_promise tk) (AwaitInitialize pi))
                       i (tasks s ++ [mkTask fen o p Finished]) = l →
                     l !! i = Some tk).
  { intros l <-. rewrite list_lookup_alter_eq, list_lookup_middle by done. reflexivity. }
  subst s4 s1. rewrite E. cbn [fst snd]. clear E.
  set (s1 := mkState _ _ _ _ _ _ _ _ _ _ _ _ _).
  split; [done|]. split; [done|]. split; [done|]. split.
  { unfold resume. cbn [tasks s1]. rewrite (Htk _ eq_refl). cbn [tk_stage tk].
    cbn [initPromises s1]. by rewrite lookup_app_r, Nat.sub_diag. }
  unfold run. cbn [foldl].
  rewrite (uciok_handshake s1 wid (mkInitClosure false (length (timers s)) pi))
    by reflexivity.
  set (s2 := set_sent s1 _).
  destruct (readyok_handshake s2 wid (mkInitClosure false (length (timers s)) pi)
              eq_refl)
    as (Hw3 & Hr3 & _ & _ & Hi3 & _ & _ & Hs3 & Ht3 & Hsp3).
  set (s3 := step (WorkerMessage (DString (lit "readyok"))) s2) in *.
  assert (E4 : step (Resume i) s3 = gbm_send i tk s3).
  { cbn [step]. unfold resume. rewrite Ht3. cbn [tasks s2 s1 set_sent].
    rewrite (Htk _ eq_refl). cbn [tk_stage tk]. rewrite Hi3.
    cbn [initPromises s2 s1 set_sent ic_resolve].
    rewrite settle_lookup_pending by (by rewrite lookup_app_r, Nat.sub_diag).
    unfold gbm_after_initialize. by rewrite Hw3, Hr3. }
  rewrite E4. destruct (gbm_send_fields i tk s3 _ Hw3) as (Hw4 & Hsp4 & Hr4).
  rewrite (gbm_send_sent i tk s3 _ Hw3), Hw4, Hsp4, Hr4, Hs3, Hsp3, Hr3.
  cbn. rewrite <- app_assoc. repeat split.
  by rewrite lookup_app_r, Nat.sub_diag.
Qed.

Lemma search_on_new_session_witness :
  let s := run [CallInitialize; CallDispose] (init None) in
  let fen := lit "8/8/8/8/8/8/8/K1k5 w - - 0 1" in
  worker s = None
  ∧ pendingInit s = None
  ∧ launched (snd (getBestMove fen None s)) = launched s ++ [multi_url].
Proof.
  intros s fen.
  assert (Hw : worker s = None) by reflexivity.
  assert (Hp : pendingInit s = None) by reflexivity.
  split; [exact Hw|]. split; [exact Hp|].
  exact (proj1 (proj2 (search_on_new_session fen None s Hw Hp))).
Defined.

(** ** Options that are not stored *)

(** X19.  [setOption] and [setHashSize] store nothing.  [setOption]
    posts its line as given to the worker, if there is one, and
    [setHashSize] posts the clamped size to a ready worker; neither
    touches the stored skill level.  A worker launched afterwards gets
    the same five handshake lines as it would have got without the call:
    the thread count, the stored skill level and no [Hash] line, so a raw
    [Skill Level] and any hash size are lost at the next launch. *)
Theorem options_not_persisted
    (name : jsstring) (v : optvalue) (mb : jsnum) (r : nat) (u : jsstring)
    (b : bool) (s : state) :
  let wid := length (launched s) in
  let handshake :=
    [(wid, Cuci); (wid, Cucinewgame);
     (wid, Csetoption (lit "Threads") (VNum (threads b s)));
     (wid, Csetoption (lit "Skill Level") (VNum (currentSkillLevel s)));
     (wid, Csetoption (lit "Ponder") (VStr (lit "false")))] in
  sent (setOption name v s)
  = sent s ++ match worker s with
              | Some w => [(w_id w, Csetoption name v)]
              | None => []
              end
  ∧ currentSkillLevel (setOption name v s) = currentSkillLevel s
  ∧ currentSkillLevel (setHashSize mb s) = currentSkillLevel s
  ∧ sent (initializeWorker r u b (setOption name v s))
    = sent (setOption name v s) ++ handshake
  ∧ sent (initializeWorker r u b (setHashSize mb s))
    = sent (setHashSize mb s) ++ handshake.
Proof.
  intros wid handshake.
  assert (Eo : setOption name v s
               = set_sent s (sent s ++ match worker s with
                                       | Some w => [(w_id w, Csetoption name v)]
                                       | None => []
                                       end)).
  { unfold setOption, postMessage. destruct (worker s); [done|].
    rewrite app_nil_r. by destruct s. }
  assert (Eh : setHashSize mb s
               = set_sent s (sent (setHashSize mb s))).
  { unfold setHashSize, postMessage, ready_worker.
    destruct (worker s); [destruct (isReady s)|]; by destruct s. }
  split; [by rewrite Eo|]. split; [by rewrite Eo|]. split; [by rewrite Eh|].
  split.
  - rewrite initializeWorker_eq. rewrite Eo. reflexivity.
  - rewrite initializeWorker_eq. rewrite Eh. reflexivity.
Qed.

End Engine.

(** ** The session when [new Worker] can throw *)

Section Throwing.

#[local] Arguments lit : simpl never.
#[local] Arguments startsWith : simpl never.
#[local] Arguments includes : simpl never.
#[local] Arguments parseBestMove : simpl never.
#[local] Arguments threads : simpl never.

Lemma browser_step_constructs e s : Browser.step true e s = step e s.
Proof.
  by destruct e.
Qed.

Lemma browser_run_app tr1 tr2 s :
  Browser.run (tr1 ++ tr2) s = Browser.run tr2 (Browser.run tr1 s).
Proof. unfold Browser.run. apply foldl_app. Qed.

Lemma settle_fresh {A} (r : promise A) ps :
  settle (length ps) r (ps ++ [Pending]) = ps ++ [r].
Proof.
  unfold settle. rewrite list_lookup_middle by done.
  replace (length ps) with (length ps + 0)%nat at 1 by lia.
  by rewrite insert_app_r.
Qed.

Lemma terminate_worker_initPromises s :
  initPromises (terminate_worker s) = initPromises s.
Proof. unfold terminate_worker. by destruct (worker s). Qed.

Lemma browser_initialize_fresh c s :
  pendingInit s = None →
  pendingInit (snd (Browser.initialize c s)) = Some (length (initPromises s))
  ∧ fst (Browser.initialize c s) = length (initPromises s)
  ∧ initPromises (snd (Browser.initialize c s))
    = initPromises s ++ [if c then Pending else Rejected WorkerConstructorError].
Proof.
  intros Hp. unfold Browser.initialize. rewrite Hp.
  unfold Browser.initializeWorker. destruct c; cbn [fst snd].
  - cbn [pendingInit set_pendingInit initPromises].
    by rewrite initializeWorker_initPromises.
  - cbn [pendingInit set_pendingInit initPromises set_initPromises].
    rewrite terminate_worker_initPromises. cbn [initPromises set_initPromises].
    by rewrite settle_fresh.
Qed.

(** What a message does to the promises of [initialize]. *)
Lemma worker_message_initPromises d s :
  initPromises (worker_message d s)
  = match worker s ≫= w_init with
    | Some ic =>
        if negb (includes (lit "uciok") (text_of d))
           && includes (lit "readyok") (text_of d)
        then settle (ic_resolve ic) (Fulfilled tt) (initPromises s)
        else initPromises s
    | None => initPromises s
    end.
Proof.
  unfold worker_message. destruct (worker s) as [w|] eqn:Hw; [|done].
  rewrite dispatch_search_initPromises. cbn [mbind option_bind].
  destruct (w_init w) as [ic|]; [|done].
  unfold handleMessage. destruct (text_of d) as [|c t] eqn:Ht.
  { rewrite (includes_nil_false (lit "readyok")) by (vm_compute; discriminate).
    by rewrite andb_false_r. }
  destruct (includes (lit "uciok") (c :: t)); cbn [negb andb].
  { unfold postMessage. by destruct (worker s). }
  destruct (includes (lit "readyok") (c :: t)); [|done].
  unfold_ops. by split_cases.
Qed.

(** What one event does to the promises of [initialize]: it adds one at
    the end (pending, or rejected when the constructor threw), or it is
    a message and does what [worker_message_initPromises] says. *)
Lemma message_or_not (e : event) :
  (∃ d, e = WorkerMessage d) ∨ (∀ d, e ≠ WorkerMessage d).
Proof. destruct e; try (right; intros; discriminate). left. by eexists. Qed.

Lemma browser_step_initPromises c e s :
  (∀ d, e ≠ WorkerMessage d) →
  ∃ l, initPromises (Browser.step c e s) = initPromises s ++ l.
Proof.
  intros Hmsg.
  assert (Hsame : ∀ s', initPromises s' = initPromises s →
            ∃ l, initPromises s' = initPromises s ++ l).
  { intros s' ->. exists []. by rewrite app_nil_r. }
  destruct e; cbn [Browser.step step]; try (by destruct (Hmsg d)).
  - destruct (pendingInit s) eqn:Hp.
    + unfold Browser.initialize. rewrite Hp. by apply Hsame.
    + destruct (browser_initialize_fresh c s Hp) as (_ & _ & ->). by eexists.
  - unfold Browser.getBestMove. cbn [worker set_tasks set_searchPromises].
    destruct (worker s) eqn:Hw; cbn [snd].
    + apply Hsame. unfold_ops. cbn. rewrite ?Hw. by split_cases.
    + destruct (Browser.initialize c _) as [q s'] eqn:E. cbn [snd].
      unfold set_stage. cbn [initPromises set_tasks].
      change s' with (snd (q, s')). rewrite <- E.
      destruct (pendingInit s) eqn:Hp.
      * unfold Browser.initialize. cbn [pendingInit set_tasks set_searchPromises].
        rewrite Hp. by apply Hsame.
      * match goal with |- context [Browser.initialize c ?x] =>
          destruct (browser_initialize_fresh c x Hp) as (_ & _ & ->) end.
        by eexists.
  - apply Hsame. unfold_ops. by split_cases.
  - apply Hsame. unfold_ops. by split_cases.
  - apply Hsame. unfold_ops. by split_cases.
  - apply Hsame. unfold_ops. by split_cases.
  - apply Hsame. unfold Browser.worker_error.
    destruct (worker s) as [[? [ic|] ?]|] eqn:Hw; try done.
    unfold Browser.handleError, Browser.initializeWorker.
    destruct (negb _); [|done]. destruct c; cbn [fst].
    + by rewrite initializeWorker_initPromises.
    + by rewrite terminate_worker_initPromises.
  - apply Hsame. unfold Browser.timer_fire.
    destruct (timers s !! t) as [[b r []]|]; try done.
    destruct (_ && _); [|done]. unfold Browser.initializeWorker.
    destruct c; cbn [fst].
    + by rewrite initializeWorker_initPromises.
    + by rewrite terminate_worker_initPromises.
  - apply Hsame. unfold_ops. by split_cases.
Qed.

Lemma browser_step_initPromises_settled c e s p x :
  initPromises s !! p = Some x → x ≠ Pending →
  initPromises (Browser.step c e s) !! p = Some x.
Proof.
  intros Hp Hx. destruct (message_or_not e) as [[d ->]|Hmsg].
  2:{ destruct (browser_step_initPromises c e s Hmsg) as [l ->].
      by apply lookup_app_l_Some. }
  - cbn [Browser.step step]. rewrite worker_message_initPromises.
    destruct (worker s ≫= w_init); [|done].
    destruct (_ && _); [|done]. by apply settle_lookup_settled.
Qed.

Lemma browser_run_initPromises_settled tr s p x :
  initPromises s !! p = Some x → x ≠ Pending →
  initPromises (Browser.run tr s) !! p = Some x.
Proof.
  revert s. induction tr as [|[c e] tr IH]; intros s Hp Hx; [done|].
  cbn. apply IH; [|done]. by apply browser_step_initPromises_settled.
Qed.

(** A pending promise of [initialize] after one event: it is pending
    still, or the event was a [readyok] for it and it is fulfilled. *)
Lemma browser_step_initPromises_pending c e s p :
  initPromises s !! p = Some Pending →
  (initPromises (Browser.step c e s) !! p = Some Pending
   ∧ ¬ ∃ d w ic, e = WorkerMessage d ∧ worker s = Some w
                 ∧ w_init w = Some ic ∧ ic_resolve ic = p
                 ∧ includes (lit "uciok") (text_of d) = false
                 ∧ includes (lit "readyok") (text_of d) = true)
  ∨ (initPromises (Browser.step c e s) !! p = Some (Fulfilled tt)
     ∧ ∃ d w ic, e = WorkerMessage d ∧ worker s = Some w
                 ∧ w_init w = Some ic ∧ ic_resolve ic = p
                 ∧ includes (lit "uciok") (text_of d) = false
                 ∧ includes (lit "readyok") (text_of d) = true).
Proof.
  intros Hp. destruct (message_or_not e) as [[d ->]|Hmsg].
  2:{ destruct (browser_step_initPromises c e s Hmsg) as [l E].
      left. split; [rewrite E; by apply lookup_app_l_Some|].
      intros (d & w & ic & -> & _). by destruct (Hmsg d). }
  - cbn [Browser.step step]. rewrite worker_message_initPromises.
    destruct (worker s) as [w|] eqn:Hw; cbn [mbind option_bind].
    2:{ left. split; [done|]. by intros (? & ? & ? & _ & ? & _). }
    destruct (w_init w) as [ic|] eqn:Hic.
    2:{ left. split; [done|]. intros (? & ? & ? & _ & [= <-] & ? & _).
        congruence. }
    destruct (includes (lit "uciok") (text_of d)) eqn:Hu; cbn [negb andb].
    { left. split; [done|].
      intros (d' & ? & ? & [= <-] & _ & _ & _ & ? & _). congruence. }
    destruct (includes (lit "readyok") (text_of d)) eqn:Hr.
    2:{ left. split; [done|].
        intros (d' & ? & ? & [= <-] & _ & _ & _ & _ & ?). congruence. }
    destruct (decide (ic_resolve ic = p)) as [Heq|Hne].
    + right. split; [rewrite Heq; by apply settle_lookup_pending|].
      by exists d, w, ic.
    + left. split; [by rewrite settle_lookup_ne|].
      intros (d' & w' & ic' & _ & [= <-] & Hic' & ? & _). congruence.
Qed.

Lemma browser_run_initPromises_no_readyok tr s p :
  Forall (fun ce => no_readyok (snd ce)) tr →
  initPromises s !! p = Some Pending →
  initPromises (Browser.run tr s) !! p = Some Pending.
Proof.
  intros Htr. revert s. induction Htr as [|[c e] tr He _ IH]; intros s Hp; [done|].
  cbn. apply IH.
  destruct (browser_step_initPromises_pending c e s p Hp)
    as [[H _]|[_ (d & w & ic & -> & _ & _ & _ & _ & Hr)]]; [done|].
  cbn in He. congruence.
Qed.

Lemma browser_run_initPromises_not_rejected tr s p :
  initPromises s !! p = Some Pending →
  ∀ err, initPromises (Browser.run tr s) !! p ≠ Some (Rejected err).
Proof.
  revert s. induction tr as [|[c e] tr IH]; intros s Hp err;
    [cbn; by rewrite Hp|].
  change (Browser.run ((c, e) :: tr) s) with (Browser.run tr (Browser.step c e s)).
  destruct (browser_step_initPromises_pending c e s p Hp) as [[H _]|[H _]].
  - by apply IH.
  - by rewrite (browser_run_initPromises_settled tr _ p (Fulfilled tt) H).
Qed.

(** C4, as the code has it.  Take an [initialize()] that starts a new
    attempt, and the promise [p] it returns.  [p] is stored as the
    pending initialization.  It is rejected exactly when [new Worker]
    throws inside that call, with the constructor's exception; in the
    other case it is pending, and from then on no event rejects it: the
    timers and the error listeners never fail it.  Whenever [p] is
    pending, an event fulfils it exactly if it is a message that holds
    [readyok] and not [uciok], received while the handshake listener of
    the current worker is one that resolves [p].  So without a [readyok]
    (neither variant reaches readiness) [p] stays pending forever.  A
    settled [p] never changes again. *)
Theorem initialize_promise_settlement (s : state) (constructs : bool) :
  pendingInit s = None →
  let p := fst (Browser.initialize constructs s) in
  let s1 := snd (Browser.initialize constructs s) in
  pendingInit s1 = Some p
  ∧ initPromises s1 !! p
    = Some (if constructs then Pending else Rejected WorkerConstructorError)
  ∧ (constructs = true →
     ∀ tr err, initPromises (Browser.run tr s1) !! p ≠ Some (Rejected err))
  ∧ (∀ tr c e,
       let s2 := Browser.run tr s1 in
       initPromises s2 !! p = Some Pending →
       initPromises (Browser.step c e s2) !! p = Some (Fulfilled tt)
       ↔ ∃ d w ic, e = WorkerMessage d ∧ worker s2 = Some w
                   ∧ w_init w = Some ic ∧ ic_resolve ic = p
                   ∧ includes (lit "uciok") (text_of d) = false
                   ∧ includes (lit "readyok") (text_of d) = true)
  ∧ (constructs = true →
     ∀ tr, Forall (fun ce => no_readyok (snd ce)) tr →
           initPromises (Browser.run tr s1) !! p = Some Pending)
  ∧ (∀ tr tr' x,
       initPromises (Browser.run tr s1) !! p = Some x → x ≠ Pending →
       initPromises (Browser.run tr' (Browser.run tr s1)) !! p = Some x).
Proof.
  intros Hfresh p s1.
  destruct (browser_initialize_fresh constructs s Hfresh) as (H1 & H2 & H3).
  fold s1 in H1, H3. fold p in H2.
  assert (Hp : initPromises s1 !! p
               = Some (if constructs then Pending
                       else Rejected WorkerConstructorError)).
  { rewrite H3, H2. by apply list_lookup_middle. }
  split; [by rewrite H1, H2|]. split; [exact Hp|]. split; [|split; [|split]].
  - intros -> tr err. by apply browser_run_initPromises_not_rejected.
  - intros tr c e s2 Hpend.
    destruct (browser_step_initPromises_pending c e s2 p Hpend)
      as [[E Hno]|[E Hyes]]; split; try done.
    rewrite E. discriminate.
  - intros -> tr Htr. by apply browser_run_initPromises_no_readyok.
  - intros tr tr' x Hx Hne. by apply browser_run_initPromises_settled.
Qed.

Lemma initialize_promise_settlement_witness :
  pendingInit (init None) = None
  ∧ initPromises (snd (Browser.initialize false (init None)))
      !! fst (Browser.initialize false (init None))
    = Some (Rejected WorkerConstructorError)
  ∧ initPromises (snd (Browser.initialize true (init None)))
      !! fst (Browser.initialize true (init None))
    = Some Pending.
Proof.
  assert (H : pendingInit (init None) = None) by reflexivity.
  split; [exact H|]. split.
  - exact (proj1 (proj2 (initialize_promise_settlement (init None) false H))).
  - exact (proj1 (proj2 (initialize_promise_settlement (init None) true H))).
Defined.

(** A [readyok] need not fulfil the promise of the latest
    [initialize()].  After [dispose()] the timer of the first attempt is
    still armed; when it fires during the second attempt it replaces the
    second worker by one whose listeners resolve the first promise.  The
    [readyok] of that worker makes the session ready and fulfils the
    first promise; the promise of the second [initialize()], which is the
    one stored, stays pending. *)
Lemma readyok_for_a_stale_attempt :
  let s := run [CallInitialize; CallDispose; CallInitialize; TimerFire 0;
                WorkerMessage (DString (lit "uciok"));
                WorkerMessage (DString (lit "readyok"))] (init None) in
  isReady s = true
  ∧ pendingInit s = Some 1%nat
  ∧ initPromises s = [Fulfilled tt; Pending]
  ∧ worker s = Some (mkWorker 2 None [])
  ∧ worker (step (TimerFire 1) s) = worker s
  ∧ initPromises (step (TimerFire 1) s) = initPromises s.
Proof. vm_compute. by repeat split. Qed.

(** C9, as the code has it.  [dispose()] never fails and acts on the
    worker only.  With a worker present it terminates it and leaves the
    session with no worker, not ready and with no pending initialization.
    With no worker present it changes nothing at all, whatever the other
    fields hold: a pending initialization that outlived its worker stays
    recorded.  In both cases the single-threaded flag, the skill level,
    the timers, the promises and the lines posted are kept, and a second
    [dispose()] changes nothing. *)
Theorem dispose_acts_on_worker_only (s : state) :
  let s' := dispose s in
  worker s' = None
  ∧ terminated s' = terminated s ++ live s
  ∧ (worker s ≠ None → isReady s' = false ∧ pendingInit s' = None)
  ∧ (worker s = None → s' = s)
  ∧ isSingleThreaded s' = isSingleThreaded s
  ∧ currentSkillLevel s' = currentSkillLevel s
  ∧ launched s' = launched s
  ∧ timers s' = timers s
  ∧ initPromises s' = initPromises s
  ∧ searchPromises s' = searchPromises s
  ∧ sent s' = sent s
  ∧ dispose s' = s'.
Proof.
  unfold dispose, terminate_worker, live.
  destruct (worker s) as [w|] eqn:Hw; cbn.
  - by repeat split.
  - rewrite Hw, app_nil_r. by repeat split.
Qed.

(** The sessions that [dispose()] cannot reset.  When [new Worker] throws
    inside [initialize()], the session has no worker and a rejected
    promise recorded; when it throws in the error listener, the session
    has no worker and a pending promise recorded.  In both, [dispose()]
    changes nothing, and a later [initialize()] returns the recorded
    promise and launches nothing, even if [new Worker] would succeed. *)
Lemma dispose_keeps_recorded_initialization :
  let s1 := Browser.run [(false, CallInitialize)] (init None) in
  let s2 := Browser.run [(true, CallInitialize); (false, WorkerError)]
              (init None) in
  (worker s1 = None ∧ pendingInit s1 = Some 0%nat
   ∧ initPromises s1 = [Rejected WorkerConstructorError]
   ∧ dispose s1 = s1
   ∧ Browser.initialize true (dispose s1) = (0%nat, s1))
  ∧ (worker s2 = None ∧ pendingInit s2 = Some 0%nat
     ∧ initPromises s2 = [Pending]
     ∧ dispose s2 = s2
     ∧ Browser.initialize true (dispose s2) = (0%nat, s2)).
Proof. vm_compute. by repeat split. Qed.



(** With no worker but an initialization still recorded, [getBestMove]
    does not fail.  Here [new Worker] throws in the error listener and
    again in the timer: the session has no worker, every timer has fired
    and the promise of [initialize()] is pending for ever.  A
    [getBestMove] then gets that promise from [initialize()] and waits
    for it: it launches and posts nothing and its promise stays pending,
    whether its continuation is tried or the worker's events come. *)
Lemma getBestMove_waits_for_recorded_initialization :
  let fen := lit "8/8/8/8/8/8/8/K1k5 w - - 0 1" in
  let s := Browser.run [(true, CallInitialize); (false, WorkerError);
                        (false, TimerFire 0)] (init None) in
  let s' := snd (Browser.getBestMove true fen None s) in
  worker s = None
  ∧ pendingInit s = Some 0%nat
  ∧ initPromises s = [Pending]
  ∧ Forall (fun t => tm_status t = TimerFired) (timers s)
  ∧ worker s' = None
  ∧ launched s' = launched s
  ∧ sent s' = sent s
  ∧ searchPromises s' = [Pending]
  ∧ resume 0 s' = s'
  ∧ Browser.step true WorkerError s' = s'
  ∧ Browser.step true (WorkerMessage (DString (lit "readyok"))) s' = s'
  ∧ dispose s' = s'.
Proof. vm_compute. repeat split; repeat constructor. Qed.

(** *** The promises of [getBestMove] *)







End Throwing.

(** ** The king's square *)

Lemma is_king_of_true turn o :
  is_king_of turn o = true ↔ o = Some (Some (mkPiece King turn)).
Proof.
  destruct o as [[[[] []]|]|], turn; simpl; split; intros H; try done;
    by inversion H.
Qed.

Lemma scan_cols_spec row turn r c n :
  match scan_cols row turn r c n with
  | Some sq =>
      ∃ c0, (c ≤ c0 < c + n)%nat
            ∧ sq = square_name r c0
            ∧ row !! c0 = Some (Some (mkPiece King turn))
            ∧ ∀ c', (c ≤ c' < c0)%nat → row !! c' ≠ Some (Some (mkPiece King turn))
  | None =>
      ∀ c', (c ≤ c' < c + n)%nat → row !! c' ≠ Some (Some (mkPiece King turn))
  end.
Proof.
  revert c. induction n as [|n IH]; intros c; simpl; [intros; lia|].
  destruct (is_king_of turn (row !! c)) eqn:E.
  - apply is_king_of_true in E. exists c. repeat split; [lia..|done|intros; lia].
  - assert (Hc : row !! c ≠ Some (Some (mkPiece King turn))).
    { intros H. apply is_king_of_true in H. congruence. }
    specialize (IH (S c)). destruct (scan_cols row turn r (S c) n) as [sq|].
    + destruct IH as (c0 & Hc0 & -> & Hk & Hfirst). exists c0.
      repeat split; [lia..|done|].
      intros c' Hc'. destruct (decide (c' = c)) as [->|]; [done|].
      apply Hfirst. lia.
    + intros c' Hc'. destruct (decide (c' = c)) as [->|]; [done|].
      apply IH. lia.
Qed.

Lemma scan_rows_spec board turn r n :
  (r + n ≤ length board)%nat →
  match scan_rows board turn r n with
  | KingAt sq =>
      ∃ r0 c0, (r ≤ r0 < r + n)%nat ∧ (c0 < 8)%nat
               ∧ sq = square_name r0 c0
               ∧ king_at board turn r0 c0
               ∧ ∀ r' c', (c' < 8)%nat →
                          (r ≤ r' < r0)%nat ∨ (r' = r0 ∧ (c' < c0)%nat) →
                          ¬ king_at board turn r' c'
  | KingNull =>
      ∀ r' c', (r ≤ r' < r + n)%nat → (c' < 8)%nat → ¬ king_at board turn r' c'
  | KingTypeError => False
  end.
Proof.
  revert r. induction n as [|n IH]; intros r Hlen; cbn [scan_rows]; [intros; lia|].
  destruct (board !! r) as [row|] eqn:Hrow.
  2:{ apply lookup_ge_None in Hrow. lia. }
  pose proof (scan_cols_spec row turn r 0 8) as Hcols.
  destruct (scan_cols row turn r 0 8) as [sq|].
  - destruct Hcols as (c0 & Hc0 & -> & Hk & Hfirst). exists r, c0.
    repeat split; [lia..|by exists row|].
    intros r' c' Hc' [Hr'|[-> Hlt]]; [lia|].
    intros (row' & Hrow' & Hk'). rewrite Hrow in Hrow'. injection Hrow' as <-.
    by apply (Hfirst c'); [lia|].
  - assert (Hnone : ∀ c', (c' < 8)%nat → ¬ king_at board turn r c').
    { intros c' Hc' (row' & Hrow' & Hk'). rewrite Hrow in Hrow'.
      injection Hrow' as <-. by apply (Hcols c'); [lia|]. }
    specialize (IH (S r)). destruct (scan_rows board turn (S r) n) as [sq| |].
    + destruct IH as (r0 & c0 & Hr0 & Hc0 & -> & Hk & Hfirst); [lia|].
      exists r0, c0. repeat split; [lia..|done|].
      intros r' c' Hc' Hbefore. destruct (decide (r' = r)) as [->|].
      * by apply Hnone.
      * apply Hfirst; [done|]. lia.
    + intros r' c' Hr' Hc'. destruct (decide (r' = r)) as [->|].
      * by apply Hnone.
      * apply IH; lia.
    + apply IH. lia.
Qed.

(** X15.  On a board of at least eight rows [findKingSquare] reads no
    missing row.  It answers with a square exactly when a king of the
    given colour stands on the 8 x 8 board: the square is the name (file
    letter [a]..[h], rank digit [8 - row]) of the first such king in
    row-major order; it answers [null] exactly when there is none. *)
Theorem findKingSquare_first_king
    (board : list (list (option piece))) (turn : piece_color) :
  (8 ≤ length board)%nat →
  match findKingSquare board turn with
  | KingAt sq =>
      ∃ r c, (r < 8)%nat ∧ (c < 8)%nat
             ∧ sq = [(97 + N.of_nat c)%N; (56 - N.of_nat r)%N]
             ∧ king_at board turn r c
             ∧ ∀ r' c', (c' < 8)%nat →
                        (r' < r)%nat ∨ (r' = r ∧ (c' < c)%nat) →
                        ¬ king_at board turn r' c'
  | KingNull =>
      ∀ r c, (r < 8)%nat → (c < 8)%nat → ¬ king_at board turn r c
  | KingTypeError => False
  end.
Proof.
  intros Hlen. unfold findKingSquare.
  pose proof (scan_rows_spec board turn 0 8 Hlen) as H.
  destruct (scan_rows board turn 0 8) as [sq| |]; [| |done].
  - destruct H as (r & c & Hr & Hc & -> & Hk & Hfirst). exists r, c.
    repeat split; [lia|done| |done|].
    + unfold square_name. f_equal. f_equal. lia.
    + intros r' c' Hc' Hb. apply Hfirst; [done|]. lia.
  - intros r c Hr Hc. apply H; [lia|done].
Qed.

Lemma findKingSquare_first_king_witness :
  let empty := replicate 8 (@None piece) in
  let board := replicate 7 empty
               ++ [ [None; None; None; None; Some (mkPiece King ColorW);
                     None; None; Some (mkPiece Rook ColorW)] ] in
  (8 ≤ length board)%nat
  ∧ findKingSquare board ColorW = KingAt (lit "e1")
  ∧ findKingSquare board ColorW ≠ KingTypeError.
Proof.
  intros empty board.
  assert (Hlen : (8 ≤ length board)%nat) by (vm_compute; lia).
  split; [exact Hlen|]. split; [reflexivity|].
  intros E. pose proof (findKingSquare_first_king board ColorW Hlen) as H.
  rewrite E in H. exact H.
Defined.

(** ** The move list *)

Lemma half_double (j : nat) : ((2 * j) / 2 = j)%nat.
Proof. symmetry. apply (Nat.div_unique _ 2 j 0); lia. Qed.

Lemma half_double_succ (j : nat) : ((2 * j + 1) / 2 = j)%nat.
Proof. symmetry. apply (Nat.div_unique _ 2 j 1); lia. Qed.

Lemma mod_double (j : nat) : ((2 * j) mod 2 = 0)%nat.
Proof. symmetry. apply (Nat.mod_unique _ 2 j 0); lia. Qed.

Lemma mod_double_succ (j : nat) : ((2 * j + 1) mod 2 = 1)%nat.
Proof. symmetry. apply (Nat.mod_unique _ 2 j 1); lia. Qed.

Lemma pair_rows_lookup {A} (l : list A) (k : nat) :
  pair_rows l !! k
  = if decide (k < (length l + 1) / 2)%nat
    then Some (Some (mkPair (l !! (2 * k)%nat) (l !! (2 * k + 1)%nat)))
    else None.
Proof.
  unfold pair_rows. rewrite list_lookup_fmap. case_decide as Hk.
  - by rewrite lookup_seq_lt.
  - rewrite lookup_seq_ge by lia. done.
Qed.

Lemma pair_rows_length {A} (l : list A) :
  length (pair_rows l) = ((length l + 1) / 2)%nat.
Proof. unfold pair_rows. by rewrite length_fmap, length_seq. Qed.

Lemma pair_step_rows {A} (done : list A) (m : A) :
  pair_step (pair_rows done) (length done) m = pair_rows (done ++ [m]).
Proof.
  destruct (Nat.Even_or_Odd (length done)) as [[j Hj]|[j Hj]].
  - (* a new row *)
    unfold pair_step. rewrite Hj, half_double, mod_double. cbn [Nat.eqb].
    assert (Hlen : length (pair_rows done) = j)
      by (by rewrite pair_rows_length, Hj, half_double_succ).
    rewrite (lookup_ge_None_2 (pair_rows done) j) by lia.
    unfold array_set. rewrite decide_False by lia.
    rewrite Hlen, Nat.sub_diag. cbn [replicate app].
    apply list_eq. intros k. rewrite pair_rows_lookup, length_app, Hj. cbn -[Nat.div Nat.modulo Nat.mul pair_rows].
    replace (2 * j + 1 + 1)%nat with (2 * S j)%nat by lia.
    rewrite half_double.
    destruct (lt_eq_lt_dec k j) as [[Hk| ->]|Hk].
    + rewrite list_lookup_alter_ne by lia.
      rewrite lookup_app_l by lia. rewrite pair_rows_lookup, Hj, half_double_succ.
      rewrite ?decide_True by lia. rewrite !lookup_app_l by lia. repeat case_decide; first [done|lia].
    + rewrite list_lookup_alter. rewrite lookup_app_r by lia.
      rewrite Hlen, Nat.sub_diag. cbn -[Nat.div Nat.modulo Nat.mul pair_rows]. rewrite ?decide_True by lia.
      rewrite list_lookup_middle by lia.
      rewrite (lookup_ge_None_2 (done ++ [m]))
        by (rewrite length_app; cbn [length]; lia).
      repeat case_decide; first [done|lia].
    + rewrite list_lookup_alter_ne by lia.
      rewrite lookup_ge_None_2 by (rewrite length_app, Hlen; cbn [length]; lia).
      repeat case_decide; first [done|lia].
  - (* Black's reply completes the last row *)
    unfold pair_step. rewrite Hj, half_double_succ, mod_double_succ. cbn [Nat.eqb].
    assert (Hlen : length (pair_rows done) = S j).
    { rewrite pair_rows_length, Hj.
      replace (2 * j + 1 + 1)%nat with (2 * S j)%nat by lia. apply half_double. }
    assert (Hrow : pair_rows done !! j
                   = Some (Some (mkPair (done !! (2 * j)%nat)
                                   (done !! (2 * j + 1)%nat)))).
    { rewrite pair_rows_lookup, decide_True; [done|]. rewrite <- pair_rows_length. lia. }
    rewrite Hrow.
    apply list_eq. intros k. rewrite pair_rows_lookup, length_app, Hj. cbn -[Nat.div Nat.modulo Nat.mul pair_rows].
    replace (2 * j + 1 + 1 + 1)%nat with (2 * S j + 1)%nat by lia.
    rewrite half_double_succ.
    destruct (lt_eq_lt_dec k j) as [[Hk| ->]|Hk].
    + rewrite list_lookup_alter_ne by lia.
      rewrite pair_rows_lookup, decide_True by (rewrite <- pair_rows_length; lia).
      rewrite ?decide_True by lia. rewrite !lookup_app_l by lia. repeat case_decide; first [done|lia].
    + rewrite list_lookup_alter, Hrow. cbn -[Nat.div Nat.modulo Nat.mul pair_rows]. rewrite ?decide_True by lia.
      rewrite lookup_app_l by lia. rewrite list_lookup_middle by lia. repeat case_decide; first [done|lia].
    + rewrite list_lookup_alter_ne by lia.
      rewrite lookup_ge_None_2 by lia. by rewrite decide_False by lia.
Qed.

Lemma forEach_pairs_rows {A} (history done : list A) :
  forEach_pairs (pair_rows done) (length done) history
  = pair_rows (done ++ history).
Proof.
  revert done. induction history as [|m history IH]; intros done.
  - by rewrite app_nil_r.
  - cbn [forEach_pairs]. rewrite pair_step_rows.
    replace (S (length done)) with (length (done ++ [m]))
      by (rewrite length_app; cbn; lia).
    rewrite IH. by rewrite <- app_assoc.
Qed.

(** X16.  The move list pairs the moves of the game in order: the array
    built by the [forEach] has one row for every two moves, rounded up,
    without holes; row [k] holds move [2k] as White's and move [2k + 1],
    if it has been played, as Black's.  Reading the rows back in order
    gives the history again. *)
Theorem move_pairs_rows {A : Type} (history : list A) :
  move_pairs history = pair_rows history
  ∧ length (move_pairs history) = ((length history + 1) / 2)%nat
  ∧ (∀ k, move_pairs history !! k
          = if decide (k < (length history + 1) / 2)%nat
            then Some (Some (mkPair (history !! (2 * k)%nat)
                               (history !! (2 * k + 1)%nat)))
            else None)
  ∧ ∀ i, (move_pairs history !! (i / 2)%nat)
         ≫= (fun row => row ≫= if (i mod 2 =? 0)%nat then pair_w else pair_b)
         = history !! i.
Proof.
  assert (E : move_pairs history = pair_rows history)
    by apply (forEach_pairs_rows history []).
  split; [done|]. rewrite E. split; [apply pair_rows_length|].
  split; [apply pair_rows_lookup|].
  intros i. rewrite pair_rows_lookup.
  pose proof (Nat.div_mod_eq (length history + 1) 2) as Hdm.
  pose proof (Nat.mod_upper_bound (length history + 1) 2) as Hmod.
  set (half := ((length history + 1) / 2)%nat) in *.
  set (rest := ((length history + 1) mod 2)%nat) in *.
  destruct (Nat.Even_or_Odd i) as [[j ->]|[j ->]].
  - rewrite half_double, mod_double. cbn [Nat.eqb]. case_decide as Hj; [done|].
    cbn -[Nat.mul]. symmetry. apply lookup_ge_None_2. lia.
  - rewrite half_double_succ, mod_double_succ. cbn [Nat.eqb].
    case_decide as Hj; [done|].
    cbn -[Nat.mul]. symmetry. apply lookup_ge_None_2. lia.
Qed.

(** ** The status line *)

(** X17.  The note "Checkmate" is rendered exactly when the game is over
    by checkmate, and the note "Your king is in check" exactly when the
    game is not over and the side to move is in check; no drawn or
    stalemated game shows either note. *)
Theorem status_notes (g : game_flags) :
  shows_checkmate_note (updateStatus g) = g_isGameOver g && g_isCheckmate g
  ∧ shows_check_note (updateStatus g) = negb (g_isGameOver g) && g_inCheck g.
Proof.
  destruct g as [[] [] [] [] [] [] [] []]; split; vm_compute; reflexivity.
Qed.

(** ** The engine's move, as played on the board *)

Lemma trimStart_app_l (x y : jsstring) :
  trimStart (x ++ y) = match trimStart x with
                       | [] => trimStart y
                       | z => z ++ y
                       end.
Proof.
  induction x as [|c x IH]; simpl; [by destruct (trimStart y)|].
  destruct (is_space c); [done|]. done.
Qed.

Lemma trimStart_nonspace_head (c : N) (y : jsstring) :
  is_space c = false → trimStart (c :: y) = c :: y.
Proof. simpl. by intros ->. Qed.

Lemma trimEnd_app_nonspace (p : jsstring) (z : N) (tail : jsstring) :
  is_space z = false →
  trimEnd (p ++ z :: tail) = p ++ z :: trimEnd tail.
Proof.
  intros Hz. unfold trimEnd. rewrite rev_app_distr. cbn [rev].
  rewrite <- app_assoc. cbn [app]. rewrite trimStart_app_l.
  destruct (trimStart (rev tail)) as [|a l] eqn:E.
  - rewrite trimStart_nonspace_head by done. cbn [rev].
    by rewrite rev_involutive.
  - rewrite rev_app_distr. cbn [rev]. rewrite rev_involutive.
    by rewrite <- app_assoc.
Qed.

Lemma trimEnd_head (c : N) (r : jsstring) :
  trimEnd (c :: r) = [] ∨ ∃ r', trimEnd (c :: r) = c :: r'.
Proof.
  unfold trimEnd. cbn [rev]. rewrite trimStart_app_l.
  destruct (trimStart (rev r)) as [|a l].
  - simpl. destruct (is_space c); [by left|right; by exists []].
  - right. exists (rev (a :: l)). by rewrite rev_app_distr.
Qed.

Lemma split_ws_from_nonspace (a s cur : jsstring) (inrun : bool) :
  a ≠ [] → Forall (fun c => is_space c = false) a →
  split_ws_from inrun cur (a ++ s) = split_ws_from false (rev a ++ cur) s.
Proof.
  revert cur inrun. induction a as [|c a IH]; intros cur inrun Hne Ha; [done|].
  apply Forall_cons in Ha as [Hc Ha]. cbn [app split_ws_from]. rewrite Hc.
  destruct a as [|c' a'].
  - done.
  - rewrite IH by done. cbn [rev]. by rewrite <- !app_assoc.
Qed.

(** The second token of a line that begins with [bestmove] and one
    space. *)
Lemma bestmove_second_token (tok tail : jsstring) :
  tok ≠ [] →
  Forall (fun c => is_space c = false) tok →
  tail = [] ∨ (∃ c r, tail = c :: r ∧ is_space c = true) →
  split_ws (trim (lit "bestmove " ++ tok ++ tail)) !! 1%nat = Some tok.
Proof.
  intros Hne Htok Htail.
  assert (Hb : Forall (fun c => is_space c = false) (lit "bestmove")).
  { change (lit "bestmove") with [98; 101; 115; 116; 109; 111; 118; 101]%N.
    repeat (constructor; [reflexivity|]). constructor. }
  destruct (exists_last Hne) as (tok0 & z & ->).
  assert (Hz : is_space z = false).
  { apply Forall_app in Htok as [_ Hz]. by inversion Hz. }
  change (lit "bestmove ") with (lit "bestmove" ++ [32%N]).
  rewrite <- !app_assoc. cbn [app].
  assert (Hts : trimStart (lit "bestmove" ++ 32%N :: tok0 ++ z :: tail)
                = lit "bestmove" ++ 32%N :: tok0 ++ z :: tail).
  { change (lit "bestmove") with (98%N :: lit "estmove"). cbn [app].
    by apply trimStart_nonspace_head. }
  unfold trim. rewrite Hts.
  replace (lit "bestmove" ++ 32%N :: tok0 ++ z :: tail)
    with ((lit "bestmove" ++ 32%N :: tok0) ++ z :: tail)
    by (by rewrite <- app_assoc).
  rewrite trimEnd_app_nonspace by done.
  assert (Htail' : trimEnd tail = []
                   ∨ ∃ c r, trimEnd tail = c :: r ∧ is_space c = true).
  { destruct Htail as [->|(c & r & -> & Hc)]; [by left|].
    destruct (trimEnd_head c r) as [->|(r' & ->)]; [by left|right; eauto]. }
  unfold split_ws. rewrite <- app_assoc.
  rewrite split_ws_from_nonspace by (done || by vm_compute).
  cbn [app split_ws_from]. change (is_space 32) with true. cbn [rev app].
  rewrite app_nil_r, rev_involutive. cbn [lookup list_lookup].
  replace (tok0 ++ z :: trimEnd tail) with ((tok0 ++ [z]) ++ trimEnd tail)
    by (by rewrite <- app_assoc).
  rewrite split_ws_from_nonspace by done.
  rewrite app_nil_r.
  destruct Htail' as [->|(c & r & -> & Hc)]; cbn [split_ws_from].
  - by rewrite rev_involutive.
  - rewrite Hc. by rewrite rev_involutive.
Qed.

(** X18.  The engine's answer is played as the engine meant it.  For a
    line [bestmove], one space, a from-square and a to-square of two code
    units each, an optional promotion letter, and then nothing or white
    space and more (a [ponder] part), [getBestMove] yields that move and
    [makeAIMove] asks the board for exactly that from-square and
    to-square, promoting to the given letter, or to a queen when none is
    given. *)
Theorem engine_move_decoded (f1 f2 t1 t2 : N) (pr : option N) (tail : jsstring) :
  Forall (fun c => is_space c = false) ([f1; f2; t1; t2] ++ option_list pr) →
  tail = [] ∨ (∃ c r, tail = c :: r ∧ is_space c = true) →
  let text := lit "bestmove " ++ ([f1; f2; t1; t2] ++ option_list pr) ++ tail in
  startsWith (lit "bestmove") text = true
  ∧ move (parseBestMove text) = Some ([f1; f2; t1; t2] ++ option_list pr)
  ∧ decode_move (move (parseBestMove text))
    = Some {| mr_from := [f1; f2];
              mr_to := [t1; t2];
              mr_promotion := match pr with
                              | Some c => [c]
                              | None => lit "q"
                              end |}.
Proof.
  intros Htok Htail text.
  assert (Hm : move (parseBestMove text) = Some ([f1; f2; t1; t2] ++ option_list pr)).
  { unfold parseBestMove. cbn [move]. by apply bestmove_second_token. }
  split; [reflexivity|]. split; [exact Hm|].
  rewrite Hm. by destruct pr.
Qed.

Lemma engine_move_decoded_witness :
  let tail := lit " ponder a2a1" in
  Forall (fun c => is_space c = false) (lit "e7e8" ++ option_list (Some 110%N))
  ∧ (tail = [] ∨ (∃ c r, tail = c :: r ∧ is_space c = true))
  ∧ decode_move (move (parseBestMove (lit "bestmove e7e8n ponder a2a1")))
    = Some {| mr_from := lit "e7"; mr_to := lit "e8"; mr_promotion := lit "n" |}.
Proof.
  intros tail.
  assert (H1 : Forall (fun c => is_space c = false)
                 ([101; 55; 101; 56]%N ++ option_list (Some 110%N)))
    by (repeat constructor).
  assert (H2 : tail = [] ∨ (∃ c r, tail = c :: r ∧ is_space c = true))
    by (right; by eexists _, _).
  split; [exact H1|]. split; [exact H2|].
  exact (proj2 (proj2 (engine_move_decoded 101 55 101 56 (Some 110%N) tail H1 H2))).
Defined.

(** ** The styles of the squares *)

Lemma described_style_at styles D F sq :
  described styles D F → style_at styles sq = F sq.
Proof.
  intros H. destruct (H sq) as [E HD]. unfold style_at. rewrite E.
  destruct (D sq); [done|]. by rewrite HD.
Qed.

Lemma described_ext styles D D' F F' :
  (∀ sq, D sq = D' sq) → (∀ sq, F sq = F' sq) →
  described styles D F → described styles D' F'.
Proof. intros HD HF H sq. rewrite <- HD, <- HF. apply H. Qed.

Lemma described_insert styles D F k c :
  described styles D F →
  described (<[k := c]> styles)
    (fun sq => D sq || bool_decide (sq = k))
    (fun sq => if bool_decide (sq = k) then c else F sq).
Proof.
  intros H sq. destruct (H sq) as [E HD]. case_bool_decide as Hk.
  - subst sq. rewrite lookup_insert_eq, orb_true_r. by split.
  - rewrite lookup_insert_ne by done. rewrite orb_false_r. by split.
Qed.

Lemma described_targets targets styles D F :
  described styles D F →
  described
    (foldl (fun styles sq => set_backgroundImage sq target_dot styles)
       styles targets)
    (fun sq => D sq || bool_decide (sq ∈ targets))
    (fun sq => if bool_decide (sq ∈ targets)
               then mkCss (boxShadow (F sq)) (Some target_dot) (animation (F sq))
               else F sq).
Proof.
  revert styles D F. induction targets as [|t targets IH]; intros styles D F H.
  - cbn [foldl]. eapply described_ext; [| |exact H]; intros sq; cbn beta.
    + rewrite bool_decide_eq_false_2 by apply not_elem_of_nil. by rewrite orb_false_r.
    + by rewrite bool_decide_eq_false_2 by apply not_elem_of_nil.
  - cbn [foldl]. unfold set_backgroundImage at 2.
    rewrite (described_style_at _ _ _ _ H).
    eapply described_ext; [| |apply IH, described_insert, H]; intros sq; cbn beta.
    + rewrite <- orb_assoc. f_equal.
      destruct (decide (sq = t)) as [->|Hne].
      * rewrite (bool_decide_eq_true_2 (t = t)) by done.
        rewrite (bool_decide_eq_true_2 (t ∈ t :: targets)) by (by left).
        reflexivity.
      * rewrite (bool_decide_eq_false_2 (sq = t)) by done. cbn.
        apply bool_decide_ext. rewrite elem_of_cons.
        split; [by right | by intros [?|?]].
    + destruct (decide (sq = t)) as [->|Hne].
      * rewrite (bool_decide_eq_true_2 (t = t)) by done.
        rewrite (bool_decide_eq_true_2 (t ∈ t :: targets)) by (by left).
        by destruct (bool_decide (t ∈ targets)).
      * rewrite (bool_decide_eq_false_2 (sq = t)) by done.
        rewrite (bool_decide_ext (sq ∈ t :: targets) (sq ∈ targets)); [done|].
        rewrite elem_of_cons. split; [by intros [?|?] | by right].
Qed.

Lemma described_empty : described ∅ (fun _ => false) (fun _ => no_css).
Proof. intros sq. by rewrite lookup_empty. Qed.

(** X20.  [buildSquareStyles] square by square.  It fails only when the
    king is looked for on a board with a missing row.  Otherwise a square
    has an entry exactly when it carries a mark, and the entry merges the
    marks without losing any: the box shadow is the highlight on the ends
    of the last move, and on the selected square it is the previous box
    shadow (the highlight, or the empty string) followed by a comma and
    the selection ring; the background image is the dot on the legal
    targets of a selection; the animation is the pulse on the square of
    the king in check. *)
Theorem buildSquareStyles_pointwise
    (last : option (jsstring * jsstring)) (selectedSquare : option jsstring)
    (legalTargets : list jsstring) (g : game_flags)
    (board : list (list (option piece))) (sq : jsstring) :
  match buildSquareStyles last selectedSquare legalTargets g board with
  | None =>
      negb (g_isGameOver g) && g_inCheck g = true
      ∧ findKingSquare board (g_turn g) = KingTypeError
  | Some styles =>
      styles !! sq
      = if last_marks last sq || is_selected selectedSquare sq
           || is_target selectedSquare legalTargets sq || king_marks g board sq
        then Some
               {| boxShadow :=
                    if is_selected selectedSquare sq
                    then Some ((if last_marks last sq then highlight else [])
                               ++ selection_ring)
                    else if last_marks last sq then Some highlight else None;
                  backgroundImage :=
                    if is_target selectedSquare legalTargets sq
                    then Some target_dot else None;
                  animation :=
                    if king_marks g board sq then Some check_pulse else None |}
        else None
  end.
Proof.
  (* the last move *)
  set (s1 := match last with
             | Some (from, to) =>
                 if str_nonempty from && str_nonempty to
                 then set_boxShadow to highlight (set_boxShadow from highlight ∅)
                 else ∅
             | None => ∅
             end).
  assert (H1 : described s1 (last_marks last)
                 (fun sq => mkCss (if last_marks last sq then Some highlight else None)
                              None None)).
  { subst s1. unfold last_marks. destruct last as [[from to]|].
    2:{ eapply described_ext; [| |apply described_empty]; done. }
    destruct (str_nonempty from && str_nonempty to).
    2:{ eapply described_ext; [| |apply described_empty]; done. }
    unfold set_boxShadow.
    eapply described_ext;
      [| |apply described_insert, described_insert, described_empty];
      intros x; cbn beta.
    - done.
    - rewrite !(described_style_at _ _ _ _
                  (described_insert _ _ _ _ _ described_empty)).
      rewrite !(described_style_at _ _ _ _ described_empty). cbn.
      by repeat case_bool_decide. }
  (* the selection *)
  set (s2 := match selectedSquare with
             | Some sel =>
                 if str_nonempty sel then
                   foldl (fun styles sq => set_backgroundImage sq target_dot styles)
                     (set_boxShadow sel
                        (default [] (s1 !! sel ≫= boxShadow) ++ selection_ring) s1)
                     legalTargets
                 else s1
             | None => s1
             end).
  assert (H2 : described s2
                 (fun sq => last_marks last sq || is_selected selectedSquare sq
                            || is_target selectedSquare legalTargets sq)
                 (fun sq =>
                    mkCss
                      (if is_selected selectedSquare sq
                       then Some ((if last_marks last sq then highlight else [])
                                  ++ selection_ring)
                       else if last_marks last sq then Some highlight else None)
                      (if is_target selectedSquare legalTargets sq
                       then Some target_dot else None)
                      None)).
  { subst s2. unfold is_selected, is_target. destruct selectedSquare as [sel|].
    2:{ eapply described_ext; [| |exact H1]; intros x; cbn beta;
          by rewrite ?orb_false_r. }
    destruct (str_nonempty sel).
    2:{ eapply described_ext; [| |exact H1]; intros x; cbn beta;
          by rewrite ?orb_false_r. }
    assert (Hold : default [] (s1 !! sel ≫= boxShadow)
                   = if last_marks last sel then highlight else []).
    { destruct (H1 sel) as [-> _]. by destruct (last_marks last sel). }
    rewrite Hold. unfold set_boxShadow.
    rewrite (described_style_at _ _ _ _ H1).
    eapply described_ext;
      [| |apply described_targets, described_insert, H1]; intros x; cbn.
    - done.
    - destruct (decide (x = sel)) as [->|Hne];
        [rewrite !(bool_decide_eq_true_2 (sel = sel)) by done
        |rewrite !(bool_decide_eq_false_2 (x = sel)) by done];
        by destruct (bool_decide (_ ∈ _)). }
  (* the king in check *)
  assert (E : buildSquareStyles last selectedSquare legalTargets g board
              = if negb (g_isGameOver g) && g_inCheck g then
                  match findKingSquare board (g_turn g) with
                  | KingAt k =>
                      if str_nonempty k
                      then Some (set_animation k check_pulse s2) else Some s2
                  | KingNull => Some s2
                  | KingTypeError => None
                  end
                else Some s2) by reflexivity.
  rewrite E. clear E. clearbody s2. clear s1 H1. unfold king_marks.
  destruct (negb (g_isGameOver g) && g_inCheck g).
  2:{ destruct (H2 sq) as [-> _]. cbn. rewrite orb_false_r.
      by destruct (_ || _). }
  destruct (findKingSquare board (g_turn g)) as [k| |].
  - destruct (str_nonempty k).
    + unfold set_animation. rewrite (described_style_at _ _ _ _ H2).
      cbn [boxShadow backgroundImage animation].
      destruct (described_insert _ _ _ k
                  (mkCss
                     (if is_selected selectedSquare k
                      then Some ((if last_marks last k then highlight else [])
                                 ++ selection_ring)
                      else if last_marks last k then Some highlight else None)
                     (if is_target selectedSquare legalTargets k
                      then Some target_dot else None)
                     (Some check_pulse)) H2 sq) as [-> _].
      cbn. case_bool_decide as Hk; [subst sq|].
      * by rewrite orb_true_r.
      * rewrite !orb_false_r. by destruct (_ || _).
    + destruct (H2 sq) as [-> _]. cbn. rewrite orb_false_r. by destruct (_ || _).
  - destruct (H2 sq) as [-> _]. cbn. rewrite orb_false_r. by destruct (_ || _).
  - done.
Qed.
